(** * ChatDoc: a shallow embedding of the retrieval-augmented answering
    pipeline ([utils.py], [app.py]) and the properties its specification
    states about it.

    Python [str] values are lists of characters, Python [dict]s are finite
    maps, exceptions are an explicit error result, and the effects of the two
    HTTP handlers (temporary files, the persisted vector index, the log
    written by [print]) are threaded through an explicit [World]. *)

From Stdlib Require Import Ascii String ZArith QArith Lia Sorted.
From stdpp Require Import gmap strings list fin_maps infinite pretty.

Set Default Proof Using "Type".

(** ** Python strings *)

(** A Python [str]: a sequence of code points.  Literals of the program are
    written with [lit]. *)
Abbreviation str := (list ascii).

Definition lit (s : string) : str := list_ascii_of_string s.
Arguments lit : simpl never.

(** [str.isspace] on one code point below 256: the ASCII white space, the
    four separators 0x1c-0x1f, NEL (0x85) and the no-break space (0xa0). *)
Definition is_space (c : ascii) : bool :=
  let n := nat_of_ascii c in
  ((9 <=? n) && (n <=? 13)) || ((28 <=? n) && (n <=? 32))
  || (n =? 133) || (n =? 160).

Fixpoint lstrip (s : str) : str :=
  match s with
  | [] => []
  | c :: t => if is_space c then lstrip t else s
  end.

Definition rstrip (s : str) : str := reverse (lstrip (reverse s)).

(** [s.strip()] *)
Definition strip (s : str) : str := rstrip (lstrip s).

(** [sep.join(parts)] *)
Fixpoint join (sep : str) (parts : list str) : str :=
  match parts with
  | [] => []
  | [p] => p
  | p :: rest => p ++ sep ++ join sep rest
  end.

(** [text.startswith(p)] *)
Fixpoint starts_with (p text : str) : bool :=
  match p, text with
  | [], _ => true
  | _ :: _, [] => false
  | a :: p', b :: t => bool_decide (a = b) && starts_with p' t
  end.

(** [p in text] for a literal pattern, which is what
    [re.search(re.escape(p), text)] decides. *)
Fixpoint contains (p text : str) : bool :=
  starts_with p text ||
  match text with
  | [] => false
  | _ :: t => contains p t
  end.

(** ** The text splitter *)

Module TextSplitter.

(** The first occurrence of the non-empty literal [sep] in [text]: the text
    before it and the text after it. *)
Fixpoint find_sep (sep text : str) : option (str * str) :=
  if starts_with sep text then Some ([], drop (length sep) text)
  else match text with
       | [] => None
       | c :: t =>
           match find_sep sep t with
           | Some (before, after) => Some (c :: before, after)
           | None => None
           end
       end.

(** [re.split("(" + sep + ")", text)] for a non-empty literal [sep]: the
    pieces between the leftmost non-overlapping occurrences, interleaved with
    the captured separator.  Every round consumes at least one character, so
    [length text] rounds are enough. *)
Fixpoint re_split_fuel (fuel : nat) (sep text : str) : list str :=
  match find_sep sep text, fuel with
  | Some (before, after), S fuel' =>
      before :: sep :: re_split_fuel fuel' sep after
  | _, _ => [text]
  end.

Definition re_split (sep text : str) : list str :=
  re_split_fuel (length text) sep text.

(** [[_splits[i] + _splits[i + 1] for i in range(1, len(_splits), 2)]]
    applied to the tail of [_splits]. *)
Fixpoint pair_up (l : list str) : list str :=
  match l with
  | a :: b :: rest => (a ++ b) :: pair_up rest
  | _ => []
  end.

(** Modelled from the spec: the Chunker of section 4.1, "recursive/greedy
    splitting that prefers semantic boundaries (paragraph, sentence, word)
    before falling back to raw character cuts, constrained to a maximum chunk
    size of 512 characters with a 40-character overlap".  [process_pdf]
    obtains it from [RecursiveCharacterTextSplitter(chunk_size=512,
    chunk_overlap=40)], a class of the langchain library whose code is not
    part of the repository; the functions below follow that class with its
    default settings: separators paragraph break, line break, blank and the
    empty string, separators kept at the start of the piece that follows
    them, chunks stripped of surrounding white space and dropped when
    nothing remains. *)
Record t := {
  chunk_size : nat;
  chunk_overlap : nat;
  separators : list str;
}.

Definition default_separators : list str :=
  [lit (String "010" (String "010" EmptyString));
   lit (String "010" EmptyString);
   lit " ";
   []].

(** [_split_text_with_regex(text, separator, keep_separator=True)] *)
Definition split_text_with_regex (text separator : str) : list str :=
  let splits :=
    match separator with
    | [] => (fun c => [c]) <$> text
    | _ =>
        match re_split separator text with
        | [] => []
        | first :: rest => first :: pair_up rest
        end
    end in
  filter (fun s => s ≠ []) splits.

(** [TextSplitter._join_docs] *)
Definition join_docs (docs : list str) (separator : str) : option str :=
  let text := strip (join separator docs) in
  match text with
  | [] => None
  | _ => Some text
  end.

Section merge.
Context (self : t).

(** The cost of one separator when the current document holds more than
    [n] pieces. *)
Definition sep_if (separator : str) (n : nat) (current_doc : list str) : nat :=
  if n <? length current_doc then length separator else 0.

(** The [while] loop of [_merge_splits]: drop pieces from the front of the
    current document until what is left fits the overlap and makes room for
    the next piece.  On an empty [current_doc] the Python loop would fail
    reading [current_doc[0]]; this is never reached, since [total] is the
    length of the current document ([SplitterFacts.pop_front_spec]): on an
    empty one it is 0 and the condition is false. *)
Fixpoint pop_front (separator : str) (_len total : nat)
    (current_doc : list str) : nat * list str :=
  if (chunk_overlap self <? total)
     || ((chunk_size self <? total + _len + sep_if separator 0 current_doc)
         && (0 <? total))
  then
    match current_doc with
    | [] => (total, [])
    | first :: rest =>
        pop_front separator _len
          (total - (length first + sep_if separator 1 current_doc)) rest
    end
  else (total, current_doc).

(** The [for] loop of [_merge_splits] with its three variables. *)
Fixpoint merge_loop (separator : str) (splits docs current_doc : list str)
    (total : nat) : list str :=
  match splits with
  | [] => docs ++ option_list (join_docs current_doc separator)
  | d :: splits' =>
      let _len := length d in
      let '(docs, total, current_doc) :=
        if chunk_size self <? total + _len + sep_if separator 0 current_doc
        then
          match current_doc with
          | [] => (docs, total, current_doc)
          | _ =>
              let docs := docs ++ option_list (join_docs current_doc separator) in
              let '(total, current_doc) :=
                pop_front separator _len total current_doc in
              (docs, total, current_doc)
          end
        else (docs, total, current_doc) in
      let current_doc := current_doc ++ [d] in
      merge_loop separator splits' docs current_doc
        (total + _len + sep_if separator 1 current_doc)
  end.

(** [TextSplitter._merge_splits] *)
Definition merge_splits (splits : list str) (separator : str) : list str :=
  merge_loop separator splits [] [] 0.

(** The [for s in splits] loop of [_split_text]; [recur] is the recursive
    call on the remaining separators, absent when none remain. *)
Fixpoint split_loop (recur : option (str → list str)) (_separator : str)
    (splits final_chunks _good_splits : list str) : list str :=
  match splits with
  | [] =>
      match _good_splits with
      | [] => final_chunks
      | _ => final_chunks ++ merge_splits _good_splits _separator
      end
  | s :: splits' =>
      if length s <? chunk_size self
      then split_loop recur _separator splits' final_chunks (_good_splits ++ [s])
      else
        let final_chunks :=
          match _good_splits with
          | [] => final_chunks
          | _ => final_chunks ++ merge_splits _good_splits _separator
          end in
        let final_chunks :=
          match recur with
          | None => final_chunks ++ [s]
          | Some f => final_chunks ++ f s
          end in
        split_loop recur _separator splits' final_chunks []
  end.

(** [RecursiveCharacterTextSplitter._split_text(text, separators)], by
    recursion on the separators still to try.  The separator used is the
    first one that is empty or occurs in the text, the last one when none
    does; kept separators are already part of the pieces, so pieces are
    merged with the empty string. *)
Fixpoint _split_text (seps : list str) (text : str) : list str :=
  match seps with
  | [] => []
  | _s :: new_separators =>
      match _s with
      | [] => split_loop None [] (split_text_with_regex text []) [] []
      | _ =>
          if contains _s text then
            split_loop
              (match new_separators with
               | [] => None
               | _ => Some (_split_text new_separators)
               end)
              [] (split_text_with_regex text _s) [] []
          else
            match new_separators with
            | [] => split_loop None [] (split_text_with_regex text _s) [] []
            | _ => _split_text new_separators text
            end
      end
  end.

(** Modelled from the spec: the Chunker's split of section 4.1, as
    [RecursiveCharacterTextSplitter.split_text(text)] of the library does
    it. *)
Definition split_text (text : str) : list str :=
  _split_text (separators self) text.

(** *** Where the chunks come from

    The functions below follow the same run and give, for every chunk, the
    text it is made of before stripping, in two parts: what is carried over
    from the chunk before it (the overlap) and what is new.  They serve to
    state how consecutive chunks overlap and produce no chunk
    themselves. *)

Fixpoint merge_loop_parts (splits carried added : list str) (total : nat) :
    list (str * str) :=
  match splits with
  | [] => [(concat carried, concat added)]
  | d :: splits' =>
      let _len := length d in
      if chunk_size self <? total + _len + sep_if [] 0 (carried ++ added)
      then
        match carried ++ added with
        | [] => merge_loop_parts splits' carried (added ++ [d]) (total + _len)
        | current_doc =>
            let '(total, kept) := pop_front [] _len total current_doc in
            (concat carried, concat added)
            :: merge_loop_parts splits' kept [d] (total + _len)
        end
      else merge_loop_parts splits' carried (added ++ [d]) (total + _len)
  end.

Definition merge_splits_parts (splits : list str) : list (str * str) :=
  merge_loop_parts splits [] [] 0.

Fixpoint split_loop_parts (recur : option (str → list (str * str)))
    (splits : list str) (final_parts : list (str * str))
    (_good_splits : list str) : list (str * str) :=
  match splits with
  | [] =>
      match _good_splits with
      | [] => final_parts
      | _ => final_parts ++ merge_splits_parts _good_splits
      end
  | s :: splits' =>
      if length s <? chunk_size self
      then split_loop_parts recur splits' final_parts (_good_splits ++ [s])
      else
        let final_parts :=
          match _good_splits with
          | [] => final_parts
          | _ => final_parts ++ merge_splits_parts _good_splits
          end in
        let final_parts :=
          match recur with
          | None => final_parts ++ [([], s)]
          | Some f => final_parts ++ f s
          end in
        split_loop_parts recur splits' final_parts []
  end.

Fixpoint _split_text_parts (seps : list str) (text : str) : list (str * str) :=
  match seps with
  | [] => []
  | _s :: new_separators =>
      match _s with
      | [] => split_loop_parts None (split_text_with_regex text []) [] []
      | _ =>
          if contains _s text then
            split_loop_parts
              (match new_separators with
               | [] => None
               | _ => Some (_split_text_parts new_separators)
               end)
              (split_text_with_regex text _s) [] []
          else
            match new_separators with
            | [] => split_loop_parts None (split_text_with_regex text _s) [] []
            | _ => _split_text_parts new_separators text
            end
      end
  end.

End merge.

(** The chunk made of a carried part and a new part: their text, stripped,
    unless nothing remains. *)
Definition chunk_of_parts (p : str * str) : option str :=
  join_docs [p.1 ++ p.2] [].

(** Every carried part is the end of the text of the chunk before it, and no
    longer than [limit]; [previous] is the text before the first part. *)
Fixpoint overlaps (limit : nat) (previous : str) (parts : list (str * str)) : Prop :=
  match parts with
  | [] => True
  | (carried, added) :: rest =>
      carried `suffix_of` previous
      ∧ length carried ≤ limit
      ∧ overlaps limit (carried ++ added) rest
  end.

(** A chunk within the size limit of the splitter. *)
Definition short (self : t) (c : str) : Prop := length c ≤ chunk_size self.

(** [parts] tells how [chunks] were cut out of [text]: each chunk is a part,
    stripped, and dropped when empty; the new parts, one after the other, are
    the text; every carried part is the end of the part before it, no longer
    than the overlap. *)
Definition describes (self : t) (text : str) (chunks : list str)
    (parts : list (str * str)) : Prop :=
  chunks = omap chunk_of_parts parts
  ∧ concat parts.*2 = text
  ∧ overlaps (chunk_overlap self) [] parts.

End TextSplitter.

(** ** Values of the program and of the libraries it calls *)

(** The outcome of a call: a value, or a raised exception, kept by its
    message [str(e)], the only thing the program reads from it. *)
Inductive result (A : Type) : Type :=
| Ok (a : A)
| Raise (e : str).
Arguments Ok {A} a.
Arguments Raise {A} e.

(** [langchain_core.documents.Document] *)
Record Document := {
  page_content : str;
  metadata : gmap string str;
}.

(** An embedding vector; its coordinates are only compared. *)
Definition vector : Type := list Z.

(** An embedding model object, by the two methods the vector store calls. *)
Record Embeddings := {
  embed_documents : list str → result (list vector);
  embed_query : str → result vector;
}.

(** A [Chroma] object: what its constructor was given. *)
Record Chroma := {
  _embedding_function : Embeddings;
  _persist_directory : string;
}.

(** A [ChatOpenAI] object; a generation depends on the prompt and on the
    sampling state of the provider. *)
Record ChatModel := {
  generate : str → nat → result str;
}.

(** What is stored under each persist directory: the embedded chunks, in
    insertion order. *)
Abbreviation Disk := (gmap string (list (str * vector))).

(** An argument of [print]. *)
Inductive pyval :=
| PStr (s : str)
| PInt (n : Z).

(** The state the handlers run in: the files of the machine, the persisted
    vector indexes, the number of generations drawn so far from the language
    model, and the lines printed. *)
Record World := {
  files : gmap string (list Byte.byte);
  persisted : Disk;
  llm_draws : nat;
  stdout : list (list pyval);
}.

(** The libraries and services the program calls, none of which is part of
    the repository.  Each is taken as it comes: any of them may raise. *)
Record Env := {
  OPENAI_API_KEY : option str;
  (* [PyPDFLoader(pdf_path).load()], from the content of the file at
     [pdf_path], if there is one *)
  PyPDFLoader_load : option (list Byte.byte) → result (list Document);
  (* [HuggingFaceEmbeddings(model_name=..., model_kwargs=...)] *)
  HuggingFaceEmbeddings : string → result Embeddings;
  (* [Chroma.from_documents(documents, embedding, persist_directory=...)] *)
  Chroma_from_documents :
    list Document → Embeddings → string → Disk → result Chroma * Disk;
  (* [Chroma(embedding_function=..., persist_directory=...)] *)
  Chroma_init : Embeddings → string → Disk → result Chroma * Disk;
  (* [vector_store.as_retriever(search_kwargs=dict(k=k)).invoke(query)] *)
  retriever_invoke :
    Chroma → nat → str → Disk → result (list Document) * Disk;
  (* [ChatOpenAI(model_name=..., temperature=..., openai_api_key=...,
     max_tokens=...)] *)
  ChatOpenAI : string → Q → option str → nat → result ChatModel;
  (* the text the prompt template shows for the retrieved documents *)
  format_context : list Document → str;
}.

(** ** Computations that read and write the world and may raise *)

Definition M (A : Type) : Type := World → result A * World.

Definition ret {A} (a : A) : M A := λ w, (Ok a, w).

Definition raise {A} (e : str) : M A := λ w, (Raise e, w).

Definition bind {A B} (m : M A) (k : A → M B) : M B :=
  λ w, match m w with
       | (Ok a, w') => k a w'
       | (Raise e, w') => (Raise e, w')
       end.

(** [try: m  except Exception as e: handler e] *)
Definition try_except {A} (m : M A) (handler : str → M A) : M A :=
  λ w, match m w with
       | (Ok a, w') => (Ok a, w')
       | (Raise e, w') => handler e w'
       end.

(** A call that cannot change the world. *)
Definition call {A} (r : result A) : M A := λ w, (r, w).

(** A call of the vector store, which works on the persisted indexes. *)
Definition on_disk {A} (f : Disk → result A * Disk) : M A :=
  λ w, let '(r, d) := f (persisted w) in
       (r, {| files := files w; persisted := d;
              llm_draws := llm_draws w; stdout := stdout w |}).

Notation "'let*' x ':=' m 'in' k" := (bind m (λ x, k))
  (at level 10, x binder, m at level 100, k at level 200).

(** [print] of the given arguments *)
Definition print (args : list pyval) : M unit :=
  λ w, (Ok tt, {| files := files w; persisted := persisted w;
                  llm_draws := llm_draws w; stdout := stdout w ++ [args] |}).

(** ** utils.py *)

Definition RecursiveCharacterTextSplitter (chunk_size chunk_overlap : nat) :
    TextSplitter.t :=
  {| TextSplitter.chunk_size := chunk_size;
     TextSplitter.chunk_overlap := chunk_overlap;
     TextSplitter.separators := TextSplitter.default_separators |}.

(** [text_splitter.create_documents(texts)] *)
Definition create_documents (self : TextSplitter.t) (texts : list str) :
    list Document :=
  text ← texts;
  (λ chunk, {| page_content := chunk; metadata := ∅ |})
    <$> TextSplitter.split_text self text.

Definition text_splitter : TextSplitter.t :=
  RecursiveCharacterTextSplitter 512 40.

Arguments create_documents : simpl never.

Section program.
Context (env : Env).

Definition process_pdf (pdf_path : string) : M (list Document) :=
  λ w,
    (let* pages := call (PyPDFLoader_load env (files w !! pdf_path)) in
     let document_text := concat (page_content <$> pages) in
     let chunks := create_documents text_splitter [document_text] in
     ret chunks) w.

Definition create_chroma_store (documents : list Document)
    (embedding_model : Embeddings) : M Chroma :=
  let* vectorstore :=
    on_disk (Chroma_from_documents env documents embedding_model "chroma_db") in
  ret vectorstore.

Definition load_chroma_store (embedding_model : Embeddings) : M Chroma :=
  let* vectorstore :=
    on_disk (Chroma_init env embedding_model "chroma_db") in
  ret vectorstore.

Definition template_head : str := lit
"
Instructions:
    You are trained to extract answers from the given Context and the User's Question. Your response must be based on semantic understanding, which means even if the wording is not an exact match, infer the closest possible meaning from the Context.

    Key Points to Follow:
    - Precise Answer Length: The answer must be between a minimum of 40 words and a maximum of 100 words.
    - Strict Answering Rules: Do not include any unnecessary text. The answer should be concise and focused directly on the question.
    - Professional Language: Do not use any abusive or prohibited language. Always respond in a polite and gentle tone.
    - No Personal Information Requests: Do not ask for personal information from the user at any point.
    - Concise & Understandable: Provide the most concise, clear, and understandable answer possible.
    - Semantic Similarity: If exact wording isnâ€™t available in the Context, use your semantic understanding to infer the answer. If there are semantically related phrases, use them to generate a precise response. Use natural language understanding to interpret closely related words or concepts.
    - Unavailable Information: If the answer is genuinely not found in the Context, politely apologize and inform the user that the specific information is not available in the provided context.

Context:
".

Definition template_middle : str := lit
"

User's Question: ".

Definition template_tail : str := lit
"

Respond in a polite, professional, and concise manner.
".

(** The retriever [vector_store.as_retriever(search_kwargs={"k": 4})]. *)
Definition retriever (vector_store : Chroma) (query : str) : M (list Document) :=
  on_disk (retriever_invoke env vector_store 4 query).

(** One generation of the model: the provider's sampling state moves on. *)
Definition model_invoke (model : ChatModel) (prompt : str) : M str :=
  λ w, (generate model prompt (llm_draws w),
        {| files := files w; persisted := persisted w;
           llm_draws := S (llm_draws w); stdout := stdout w |}).

(** [rag_chain.invoke(input_query)] for
    [rag_chain = setup_and_retrieval | prompt | model | output_parser]. *)
Definition rag_chain_invoke (vector_store : Chroma) (model : ChatModel)
    (input_query : str) : M str :=
  let* context := retriever vector_store input_query in
  let question := input_query in
  let prompt := template_head ++ format_context env context
                ++ template_middle ++ question ++ template_tail in
  let* response := model_invoke model prompt in
  ret response.

Definition qa_ret (vector_store : Chroma) (input_query : str) : M str :=
  try_except
    (let* model :=
       call (ChatOpenAI env "gpt-4o-mini" (7 # 10)%Q (OPENAI_API_KEY env) 512) in
     let* response := rag_chain_invoke vector_store model input_query in
     ret response)
    (λ ex, ret (lit "Error: " ++ ex)).

(** ** app.py *)

Record QuestionRequest := { question : str }.

(** [fastapi.UploadFile], by what the handler reads of it. *)
Record UploadFile := {
  filename : str;
  content : list Byte.byte;
}.

(** What a handler gives back to the framework: the returned [dict], or
    the [HTTPException] it raised. *)
Inductive response :=
| Return (body : gmap string str)
| HTTPException (status_code : nat) (detail : str).

(** [tempfile.NamedTemporaryFile(delete=False, suffix=".pdf")]: a new,
    empty file under a name no file has yet. *)
Definition NamedTemporaryFile : M string :=
  λ w, let name := fresh (dom (files w)) in
       (Ok name, {| files := <[name := []]> (files w); persisted := persisted w;
                    llm_draws := llm_draws w; stdout := stdout w |}).

(** [temp_file.write(data)], flushed when the [with] block is left. *)
Definition file_write (name : string) (data : list Byte.byte) : M unit :=
  λ w, (Ok tt, {| files := <[name := data]> (files w); persisted := persisted w;
                  llm_draws := llm_draws w; stdout := stdout w |}).

(** [os.remove(path)] *)
Definition os_remove (path : string) : M unit :=
  λ w, match files w !! path with
       | Some _ =>
           (Ok tt, {| files := delete path (files w); persisted := persisted w;
                      llm_draws := llm_draws w; stdout := stdout w |})
       | None =>
           (Raise (lit "[Errno 2] No such file or directory: '"
                   ++ lit path ++ lit "'"), w)
       end.

(** A handler body inside [try: ... except Exception as e:], where the
    [except] branch prints and raises an [HTTPException]. *)
Definition handle (body : M (gmap string str)) (where_ failed : str) :
    World → response * World :=
  λ w, match body w with
       | (Ok d, w') => (Return d, w')
       | (Raise e, w') =>
           (HTTPException 500 (failed ++ e),
            snd (print [PStr where_; PStr e] w'))
       end.

Definition upload_pdf (file : UploadFile) : World → response * World :=
  handle
    (let* _ := print [PStr (lit "Received file:"); PStr (filename file)] in
     let* temp_file_path := NamedTemporaryFile in
     let file_content := content file in
     let* _ := file_write temp_file_path file_content in
     let* _ := print [PStr (lit "Temporary file path:");
                      PStr (lit temp_file_path)] in
     let* document_chunks := process_pdf temp_file_path in
     let* _ := print [PStr (lit "Number of document chunks:");
                      PInt (Z.of_nat (length document_chunks))] in
     let* embedding_model :=
       call (HuggingFaceEmbeddings env "Lajavaness/bilingual-embedding-small") in
     let* _ := print [PStr (lit "Embedding model initialized.")] in
     let* _ := create_chroma_store document_chunks embedding_model in
     let* _ := print [PStr (lit "Chroma store created and persisted.")] in
     let* _ := os_remove temp_file_path in
     let* _ := print [PStr (lit "Temporary file removed.")] in
     ret {[ "message" := lit "PDF successfully processed and stored in vector DB" ]})
    (lit "An error occurred in upload_pdf:")
    (lit "Failed to process PDF: ").

Definition ask_question (question_request : QuestionRequest) :
    World → response * World :=
  handle
    (let* embedding_model :=
       call (HuggingFaceEmbeddings env "Lajavaness/bilingual-embedding-small") in
     let* vector_store := load_chroma_store embedding_model in
     let question := question question_request in
     let* response := qa_ret vector_store question in
     ret {[ "answer" := response ]})
    (lit "An error occurred in ask_question:")
    (lit "Failed to retrieve answer: ").

Definition health_check : gmap string str := {[ "status" := lit "Success" ]}.

End program.


(** ** The vector index *)

Module VectorIndex.

(** Modelled from the spec: the vector-index storage capability of sections
    4.2, 4.3 and 6 ("upsert", "similarity_search(vector, k) -> ranked
    chunks", "open"), which the program reaches through the [Chroma] class
    of a library that is not part of the repository.  An index is the list of
    its (chunk text, embedding vector) pairs.  [build] embeds every chunk and
    adds the pairs to what the location already holds; a search embeds the
    query, ranks all pairs by distance to it, ties in the index's own order,
    and gives the first [k], fewer when the index holds fewer.  For [open] on
    a location that holds no index the spec has a failure, [IndexNotFound],
    while the library's constructor creates an empty collection there; the
    flag [create_if_missing] chooses between the two. *)
Section store.
Context (create_if_missing : bool) (distance : vector → vector → Z).

(** The pairs stored at a location, none when nothing is there. *)
Definition entries (d : Disk) (persist_directory : string) : list (str * vector) :=
  default [] (d !! persist_directory).

(** Modelled from the spec: [build] of section 4.2, the library's
    [Chroma.from_documents].  Every chunk is embedded and the pairs are added
    to what the location holds. *)
Definition from_documents (documents : list Document) (embedding : Embeddings)
    (persist_directory : string) (d : Disk) : result Chroma * Disk :=
  let texts := page_content <$> documents in
  match embed_documents embedding texts with
  | Raise e => (Raise e, d)
  | Ok vectors =>
      if bool_decide (length vectors = length texts) then
        (Ok {| _embedding_function := embedding;
               _persist_directory := persist_directory |},
         <[persist_directory :=
             entries d persist_directory ++ zip texts vectors]> d)
      else (Raise (lit "Unequal lengths of documents and embeddings"), d)
  end.

(** Modelled from the spec: [open] of section 4.2, the library's [Chroma]
    constructor.  Nothing is embedded; on a location without index it fails
    with [IndexNotFound], as the spec has it, or creates an empty index, as
    the library does, according to [create_if_missing]. *)
Definition init (embedding : Embeddings) (persist_directory : string)
    (d : Disk) : result Chroma * Disk :=
  let handle := {| _embedding_function := embedding;
                   _persist_directory := persist_directory |} in
  match d !! persist_directory with
  | Some _ => (Ok handle, d)
  | None =>
      if create_if_missing
      then (Ok handle, <[persist_directory := []]> d)
      else (Raise (lit "IndexNotFound"), d)
  end.

(** Insertion into a ranked list, before the first pair that is not
    closer to the query. *)
Fixpoint insert_ranked (q : vector) (x : str * vector)
    (ranked : list (str * vector)) : list (str * vector) :=
  match ranked with
  | [] => [x]
  | y :: rest =>
      if (distance q x.2 <=? distance q y.2)%Z
      then x :: y :: rest
      else y :: insert_ranked q x rest
  end.

Definition rank (q : vector) (index : list (str * vector)) : list (str * vector) :=
  foldr (insert_ranked q) [] index.

(** Modelled from the spec: "similarity_search(vector, k) -> ranked chunks"
    of section 6: the first [k] of the ranking, fewer when the index holds
    fewer. *)
Definition similarity_search (q : vector) (k : nat)
    (index : list (str * vector)) : list Document :=
  (λ e, {| page_content := e.1; metadata := ∅ |}) <$> take k (rank q index).

(** Modelled from the spec: [retrieve] of section 4.3, the library's
    retriever: the query is embedded with the embedding model of the handle
    and the index at the handle's location is searched. *)
Definition retrieve (handle : Chroma) (k : nat) (query : str) (d : Disk) :
    result (list Document) * Disk :=
  match embed_query (_embedding_function handle) query with
  | Raise e => (Raise e, d)
  | Ok q =>
      (Ok (similarity_search q k (entries d (_persist_directory handle))), d)
  end.

(** The libraries [base] with this vector index for [Chroma]. *)
Definition install (base : Env) : Env :=
  {| OPENAI_API_KEY := OPENAI_API_KEY base;
     PyPDFLoader_load := PyPDFLoader_load base;
     HuggingFaceEmbeddings := HuggingFaceEmbeddings base;
     Chroma_from_documents := from_documents;
     Chroma_init := init;
     retriever_invoke := retrieve;
     ChatOpenAI := ChatOpenAI base;
     format_context := format_context base |}.

End store.

End VectorIndex.

(** ** A small instance of the outside world, to run the program on *)

Module Demo.

(** An embedding model that maps a text to its length. *)
Definition embeddings : Embeddings :=
  {| embed_documents := λ texts, Ok ((λ t, [Z.of_nat (length t)]) <$> texts);
     embed_query := λ t, Ok [Z.of_nat (length t)] |}.

Definition distance (a b : vector) : Z := Z.abs (hd 0%Z a - hd 0%Z b).

(** A language model that always gives the same answer, and one that is
    down. *)
Definition chat : ChatModel := {| generate := λ _ _, Ok (lit "It is Paris.") |}.

Definition chat_down : ChatModel :=
  {| generate := λ _ _, Raise (lit "Connection error.") |}.

(** A loader that reads a file as one page of plain text. *)
Definition load (file : option (list Byte.byte)) : result (list Document) :=
  match file with
  | Some bytes => Ok [{| page_content := ascii_of_byte <$> bytes; metadata := ∅ |}]
  | None => Raise (lit "File path is not a valid file or url")
  end.

Definition libraries (model : ChatModel) : Env :=
  {| OPENAI_API_KEY := Some (lit "sk-test");
     PyPDFLoader_load := load;
     HuggingFaceEmbeddings := λ _, Ok embeddings;
     Chroma_from_documents := λ _ _ _ d, (Raise (lit "no vector store"), d);
     Chroma_init := λ _ _ d, (Raise (lit "no vector store"), d);
     retriever_invoke := λ _ _ _ d, (Raise (lit "no vector store"), d);
     ChatOpenAI := λ _ _ _ _, Ok model;
     format_context := λ docs, concat (page_content <$> docs) |}.

(** The libraries with the vector index of the specification, whose
    [open] fails on a missing index, and with one that creates it. *)
Definition env_strict : Env := VectorIndex.install false distance (libraries chat).

Definition env_creating : Env := VectorIndex.install true distance (libraries chat).

Definition env_llm_down : Env :=
  VectorIndex.install true distance (libraries chat_down).

(** The libraries when no key of the model provider is configured: the
    model cannot be created. *)
Definition env_no_key : Env :=
  VectorIndex.install true distance
    {| OPENAI_API_KEY := None;
       PyPDFLoader_load := load;
       HuggingFaceEmbeddings := λ _, Ok embeddings;
       Chroma_from_documents := λ _ _ _ d, (Raise (lit "no vector store"), d);
       Chroma_init := λ _ _ d, (Raise (lit "no vector store"), d);
       retriever_invoke := λ _ _ _ d, (Raise (lit "no vector store"), d);
       ChatOpenAI := λ _ _ _ _, Raise (lit "Did not find openai_api_key");
       format_context := λ docs, concat (page_content <$> docs) |}.

Definition pdf (name text : string) : UploadFile :=
  {| filename := lit name; content := byte_of_ascii <$> lit text |}.

Definition paris : UploadFile :=
  pdf "paris.pdf"
      "Paris is the capital of France. It is known for the Eiffel Tower.".

Definition berlin : UploadFile :=
  pdf "berlin.pdf" "Berlin is the capital of Germany.".

Definition scanned : UploadFile := pdf "scan.pdf" "".

(** A text of 1000 characters: two hundred words. *)
Definition long_text : str := concat (replicate 200 (lit "word ")).

(** A machine on which nothing has been stored yet. *)
Definition fresh_world : World :=
  {| files := ∅; persisted := ∅; llm_draws := 0; stdout := [] |}.

End Demo.

(** ** streamlit_app.py *)

Module Streamlit.

(** The double quote character. *)
Definition dq : str := ["034"%char].

(** A value decoded from a JSON response, by what the page does with one:
    it formats it into a text and tests its truth.  A string is true when it
    is not empty; of a value of another kind, the text it is formatted to
    and its truth value are kept. *)
Inductive value :=
| Str (s : str)
| Other (text : str) (truth : bool).

(** [f'{v}'] *)
Definition format (v : value) : str :=
  match v with
  | Str s => s
  | Other text _ => text
  end.

(** [if v:] *)
Definition truth (v : value) : bool :=
  match v with
  | Str [] => false
  | Str (_ :: _) => true
  | Other _ b => b
  end.

(** An entry of [st.session_state['chat_history']]. *)
Record message := {
  role : str;
  content : value;
}.

Record session_state := {
  chat_history : list message;
  api_url : str;
}.

(** What the page shows, in the order of the calls. *)
Inductive element :=
| spinner (text : str)
| error (body : str)
| sidebar_success (body : str)
| sidebar_error (body : str)
| markdown (body : str) (unsafe_allow_html : bool)
| balloons.

Inductive log_record :=
| info (msg : str)
| log_error (msg : str).

(** A run of the page: the session state, the elements shown and the
    records logged so far. *)
Record Page := {
  session : session_state;
  elements : list element;
  log : list log_record;
}.

Definition st (e : element) (p : Page) : Page :=
  {| session := session p; elements := elements p ++ [e]; log := log p |}.

Definition logger (r : log_record) (p : Page) : Page :=
  {| session := session p; elements := elements p; log := log p ++ [r] |}.

(** [st.session_state['chat_history'].append(m)] *)
Definition append (m : message) (p : Page) : Page :=
  {| session := {| chat_history := chat_history (session p) ++ [m];
                   api_url := api_url (session p) |};
     elements := elements p; log := log p |}.

(** A session that has just begun, where the variable API_URL is not set,
    on a page that shows nothing yet. *)
Definition new_page : Page :=
  {| session := {| chat_history := []; api_url := lit "http://localhost:8000" |};
     elements := []; log := [] |}.

(** The file of [st.sidebar.file_uploader]. *)
Record UploadedFile := {
  name : str;
  getvalue : list Byte.byte;
}.

(** The calls of the [requests] library the page makes. *)
Inductive Request :=
| post_files (url : str)
    (files : gmap string (str * list Byte.byte * str)) (timeout : nat)
| post_json (url : str) (json : gmap string str) (timeout : nat)
| get (url : str) (timeout : nat).

(** [requests.Response], by what the page reads of it: the status code, and
    [response.json()] as far as [.get] can be called on it: the object of a
    body that is a JSON object, and the exception otherwise. *)
Record Response := {
  status_code : nat;
  json : result (gmap string value);
}.

(** How a request ends: with a response, with [requests.exceptions.Timeout],
    or with another exception, of which the message is kept. *)
Inductive outcome :=
| Responded (response : Response)
| Timeout
| Exception (e : str).

Section page.
Context (requests : Request → outcome).

Definition upload_pdf (file : UploadedFile) (p : Page) : bool * Page :=
  let api_url := api_url (session p) in
  let on_exception e :=
    (false,
     logger (log_error (lit "An error occurred during PDF upload: " ++ e))
       (st (sidebar_error (lit "An error occurred: " ++ e))
          (st (spinner (lit "Uploading PDF...")) p))) in
  let files := {[ "file" := (name file, getvalue file, lit "application/pdf") ]} in
  match requests (post_files (api_url ++ lit "/upload-pdf/") files 60) with
  | Responded response =>
      if decide (status_code response = 200) then
        (true,
         logger (info (lit "PDF uploaded successfully."))
           (st (sidebar_success (lit "PDF successfully uploaded and processed."))
              (st (spinner (lit "Uploading PDF...")) p)))
      else
        match json response with
        | Ok body =>
            let error_detail :=
              default (Str (lit "Unknown error")) (body !! "detail") in
            (false,
             logger (log_error (lit "Failed to upload PDF: " ++ format error_detail))
               (st (sidebar_error (lit "Failed to upload PDF: " ++ format error_detail))
                  (st (spinner (lit "Uploading PDF...")) p)))
        | Raise e => on_exception e
        end
  | Timeout =>
      (false,
       logger (log_error (lit "PDF upload timed out."))
         (st (sidebar_error (lit "Request timed out. Please try again."))
            (st (spinner (lit "Uploading PDF...")) p)))
  | Exception e => on_exception e
  end.

Definition send_question (question : str) (p : Page) : option value * Page :=
  let api_url := api_url (session p) in
  let on_exception e :=
    (None,
     logger (log_error (lit "An error occurred during question retrieval: " ++ e))
       (st (error (lit "An error occurred: " ++ e))
          (st (spinner (lit "Fetching answer...")) p))) in
  let payload := {[ "question" := question ]} in
  match requests (post_json (api_url ++ lit "/ask-question/") payload 30) with
  | Responded response =>
      if decide (status_code response = 200) then
        match json response with
        | Ok body =>
            let answer :=
              default (Str (lit "No answer returned.")) (body !! "answer") in
            (Some answer,
             logger (info (lit "Received answer from API."))
               (st (spinner (lit "Fetching answer...")) p))
        | Raise e => on_exception e
        end
      else
        match json response with
        | Ok body =>
            let error_detail :=
              default (Str (lit "Unknown error")) (body !! "detail") in
            (None,
             logger (log_error (lit "Failed to retrieve answer: "
                                ++ format error_detail))
               (st (error (lit "Failed to retrieve answer: " ++ format error_detail))
                  (st (spinner (lit "Fetching answer...")) p)))
        | Raise e => on_exception e
        end
  | Timeout =>
      (None,
       logger (log_error (lit "Question request timed out."))
         (st (error (lit "Request timed out. Please try again."))
            (st (spinner (lit "Fetching answer...")) p)))
  | Exception e => on_exception e
  end.

(** The two blocks of [render_chat], before and after the content of the
    message. *)
Definition user_html_before : str :=
  lit "
                <div class=" ++ dq ++ lit "flex-container align-right" ++ dq ++ lit ">
                    <div class=" ++ dq ++ lit "user-message" ++ dq ++ lit "> ".

Definition user_html_after : str :=
  lit "</div>
                </div>
                ".

Definition assistant_html_before : str :=
  lit "
                <div class=" ++ dq ++ lit "flex-container align-left" ++ dq ++ lit ">
                    <div class=" ++ dq ++ lit "assistant-message" ++ dq ++ lit "> ".

Definition assistant_html_after : str :=
  lit "</div>
                </div>
                ".

(** One [st.markdown] of [render_chat]: the block of a message, none when
    the role is neither of the two. *)
Definition render_message (chat : message) : option element :=
  if decide (role chat = lit "user") then
    Some (markdown (user_html_before ++ format (content chat) ++ user_html_after)
            true)
  else if decide (role chat = lit "assistant") then
    Some (markdown (assistant_html_before ++ format (content chat)
                    ++ assistant_html_after) true)
  else None.

Definition render_chat (p : Page) : Page :=
  foldl (λ p chat, from_option (λ e, st e p) p (render_message chat))
        p (chat_history (session p)).

(** The form of the main interface and the lines after it: what a run of
    the script does with the text of the input and the state of the Send
    button. *)
Definition chat_form (user_input : str) (submit_button : bool) (p : Page) : Page :=
  if submit_button && bool_decide (user_input ≠ []) then
    let p := append {| role := lit "user"; content := Str user_input |} p in
    let '(answer, p) := send_question user_input p in
    match answer with
    | Some answer =>
        if truth answer
        then append {| role := lit "assistant"; content := answer |} p
        else p
    | None => p
    end
  else p.

(** The upload part of the sidebar: the chosen file, if any, and the state
    of the Upload button. *)
Definition upload_button (uploaded_file : option UploadedFile) (button : bool)
    (p : Page) : Page :=
  match uploaded_file with
  | Some uploaded_file =>
      if button then
        let '(success, p) := upload_pdf uploaded_file p in
        if success then st balloons p else p
      else p
  | None => p
  end.

(** The health check part of the sidebar, by the state of its button. *)
Definition health_check_button (button : bool) (p : Page) : Page :=
  if button then
    let api_url := api_url (session p) in
    let on_exception e :=
      logger (log_error (lit "An error occurred during health check: " ++ e))
        (st (sidebar_error (lit "An error occurred: " ++ e)) p) in
    match requests (get (api_url ++ lit "/") 10) with
    | Responded response =>
        if decide (status_code response = 200) then
          match json response with
          | Ok body =>
              let status :=
                default (Str (lit "Unknown status")) (body !! "status") in
              logger (info (lit "Health check successful."))
                (st (sidebar_success (lit "Application Status: " ++ format status)) p)
          | Raise e => on_exception e
          end
        else
          let text := lit "Failed to retrieve status: "
                      ++ lit (pretty (status_code response)) in
          logger (log_error text) (st (sidebar_error text) p)
    | Timeout =>
        logger (log_error (lit "Health check request timed out."))
          (st (sidebar_error (lit "Health check request timed out.")) p)
    | Exception e => on_exception e
    end
  else p.

End page.

(** The response the framework sends for what a handler of app.py gave
    back: a returned [dict] goes out with status 200 as a JSON object, an
    [HTTPException] with its status code and its detail under the key
    detail. *)
Definition http_response (r : response) : Response :=
  match r with
  | Return body => {| status_code := 200; json := Ok (Str <$> body) |}
  | HTTPException status_code detail =>
      {| status_code := status_code; json := Ok {[ "detail" := Str detail ]} |}
  end.

(** The histories the page can reach: questions of the user, each followed
    by at most one message of the assistant. *)
Inductive conversation : list message → Prop :=
| conversation_nil : conversation []
| conversation_question (h : list message) (q : str) :
    conversation h →
    conversation (h ++ [{| role := lit "user"; content := Str q |}])
| conversation_answer (h : list message) (q : str) (a : value) :
    conversation h →
    conversation (h ++ [{| role := lit "user"; content := Str q |};
                        {| role := lit "assistant"; content := a |}]).

End Streamlit.

(** * Properties *)

(** ** Strings *)

Lemma join_nil_sep (parts : list str) : join [] parts = concat parts.
Proof.
  induction parts as [|p [|q rest] IH]; simpl in *.
  - done.
  - by rewrite app_nil_r.
  - by rewrite IH.
Qed.

Lemma starts_with_spec (p text : str) :
  starts_with p text = true ↔ ∃ rest, text = p ++ rest.
Proof.
  revert text. induction p as [|a p IH]; intros text; simpl.
  - split; [eauto | done].
  - destruct text as [|b t].
    + split; [done | intros [rest Hr]; discriminate].
    + rewrite andb_true_iff, bool_decide_eq_true, IH. split.
      * intros [-> [rest ->]]. eauto.
      * intros [rest Hr]. injection Hr as -> ->. eauto.
Qed.

Module SplitterFacts.
Import TextSplitter.

(** *** Splitting on a separator loses no character *)

Lemma find_sep_Some (sep text before after : str) :
  find_sep sep text = Some (before, after) → text = before ++ sep ++ after.
Proof.
  revert before after. induction text as [|c t IH]; intros before after.
  - destruct sep; simpl; [|done]. by intros [= <- <-].
  - cbn [find_sep]. destruct (starts_with sep (c :: t)) eqn:E.
    + intros [= <- <-]. apply starts_with_spec in E as [rest Hr].
      by rewrite Hr, drop_app_length.
    + destruct (find_sep sep t) as [[b a]|] eqn:F; [|done].
      intros [= <- <-]. by rewrite (IH b a eq_refl).
Qed.

Lemma re_split_fuel_shape (fuel : nat) (sep text : str) :
  ∃ first rest, re_split_fuel fuel sep text = first :: rest
                ∧ first ++ concat (pair_up rest) = text.
Proof.
  revert text. induction fuel as [|fuel IH]; intros text; simpl.
  - destruct (find_sep sep text) as [[b a]|]; exists text, [];
      by rewrite app_nil_r.
  - destruct (find_sep sep text) as [[b a]|] eqn:F.
    + destruct (IH a) as (first & rest & -> & Hj).
      exists b, (sep :: first :: rest). split; [done|].
      simpl. rewrite <- (assoc_L (++)), Hj. symmetry. by apply find_sep_Some.
    + exists text, []. by rewrite app_nil_r.
Qed.

Lemma concat_filter_nonempty (l : list str) :
  concat (filter (λ s, s ≠ []) l) = concat l.
Proof.
  induction l as [|x l IH]; [done|].
  destruct (decide (x = [])) as [->|Hx].
  - rewrite filter_cons_False by (intros H; by apply H). done.
  - rewrite filter_cons_True by done. cbn [concat]. by f_equal.
Qed.

Lemma concat_singletons (text : str) : concat ((λ c, [c]) <$> text) = text.
Proof. induction text as [|c t IH]; [done|]. cbn. by f_equal. Qed.

Lemma split_text_with_regex_concat (text separator : str) :
  concat (split_text_with_regex text separator) = text.
Proof.
  unfold split_text_with_regex. rewrite concat_filter_nonempty.
  destruct separator as [|a sep']; [apply concat_singletons|].
  unfold re_split.
  by destruct (re_split_fuel_shape (length text) (a :: sep') text)
    as (first & rest & -> & Hj).
Qed.

Lemma split_text_with_regex_nonempty (text separator : str) :
  Forall (λ s, s ≠ []) (split_text_with_regex text separator).
Proof.
  unfold split_text_with_regex. apply Forall_forall. intros s Hs.
  by apply list_elem_of_filter in Hs as [? _].
Qed.

Lemma split_text_with_regex_chars (text : str) :
  Forall (λ s, length s = 1) (split_text_with_regex text []).
Proof.
  unfold split_text_with_regex. apply Forall_forall. intros s Hs.
  apply list_elem_of_filter in Hs as [_ Hs].
  apply list_elem_of_fmap in Hs as (c & -> & _). done.
Qed.

(** *** Merging pieces that fit into one chunk *)

Lemma sep_if_nil (n : nat) (current_doc : list str) : sep_if [] n current_doc = 0.
Proof. unfold sep_if. by destruct (n <? length current_doc). Qed.

Lemma join_docs_concat (docs : list str) :
  join_docs docs [] = join_docs [concat docs] [].
Proof. unfold join_docs. by rewrite join_nil_sep. Qed.

Section fits.
Context (self : t).

Lemma merge_loop_fits (splits docs current_doc : list str) (total : nat) :
  total + length (concat splits) ≤ chunk_size self →
  merge_loop self [] splits docs current_doc total
  = docs ++ option_list (join_docs (current_doc ++ splits) []).
Proof.
  revert current_doc total.
  induction splits as [|d splits IH]; intros current_doc total Hfit.
  - by rewrite app_nil_r.
  - cbn [concat] in Hfit. rewrite length_app in Hfit.
    cbn [merge_loop]. rewrite !sep_if_nil.
    destruct (chunk_size self <? total + length d + 0) eqn:E.
    { apply Nat.ltb_lt in E. lia. }
    rewrite sep_if_nil, IH by lia. by rewrite <- (assoc_L (++)).
Qed.

Lemma merge_splits_fits (splits : list str) :
  length (concat splits) ≤ chunk_size self →
  merge_splits self splits [] = option_list (join_docs [concat splits] []).
Proof.
  intros Hfit. unfold merge_splits. rewrite merge_loop_fits by done.
  by rewrite <- join_docs_concat.
Qed.

(** When every piece is shorter than the chunk size the loop of
    [_split_text] only collects them and merges once at the end. *)
Lemma split_loop_all_small recur _separator
    (splits final_chunks _good_splits : list str) :
  Forall (λ s, length s < chunk_size self) splits →
  split_loop self recur _separator splits final_chunks _good_splits
  = match _good_splits ++ splits with
    | [] => final_chunks
    | _ => final_chunks ++ merge_splits self (_good_splits ++ splits) _separator
    end.
Proof.
  revert _good_splits.
  induction splits as [|s splits IH]; intros good Hsmall.
  - by rewrite app_nil_r.
  - apply Forall_cons in Hsmall as [Hs Hsmall]. cbn [split_loop].
    apply Nat.ltb_lt in Hs. rewrite Hs, IH by done.
    by rewrite <- (assoc_L (++)).
Qed.

(** Pieces that add up to a text no longer than the chunk size: either all
    are shorter than the chunk size, or the text is the only piece. *)
Lemma pieces_small_or_whole (pieces : list str) :
  Forall (λ s, s ≠ []) pieces →
  length (concat pieces) ≤ chunk_size self →
  Forall (λ s, length s < chunk_size self) pieces
  ∨ (pieces = [concat pieces] ∧ length (concat pieces) = chunk_size self).
Proof.
  intros Hne Hfit.
  destruct (decide (Forall (λ s, length s < chunk_size self) pieces))
    as [|Hex]; [by left | right].
  apply not_Forall_Exists in Hex; [|apply _].
  apply Exists_exists in Hex as (p & Hin & Hp).
  apply list_elem_of_split in Hin as (l1 & l2 & ->).
  rewrite Forall_app, Forall_cons in Hne. destruct Hne as (H1 & _ & H2).
  rewrite concat_app in Hfit. cbn [concat] in Hfit.
  rewrite !length_app in Hfit.
  assert (l1 = []) as ->.
  { destruct l1 as [|x l1]; [done|]. apply Forall_cons in H1 as [Hx _].
    cbn [concat] in Hfit. rewrite length_app in Hfit.
    destruct x; [done|]. simpl in *. lia. }
  assert (l2 = []) as ->.
  { destruct l2 as [|x l2]; [done|]. apply Forall_cons in H2 as [Hx _].
    cbn [concat] in Hfit. rewrite length_app in Hfit.
    destruct x; [done|]. simpl in *. lia. }
  simpl in *. rewrite app_nil_r in *. split; [done | lia].
Qed.

Lemma split_loop_fits recur (pieces : list str) :
  Forall (λ s, s ≠ []) pieces →
  length (concat pieces) ≤ chunk_size self →
  (Forall (λ s, length s < chunk_size self) pieces
   ∨ ∃ f, recur = Some f
          ∧ f (concat pieces) = option_list (join_docs [concat pieces] [])) →
  split_loop self recur [] pieces [] []
  = option_list (join_docs [concat pieces] []).
Proof.
  intros Hne Hfit Hcase.
  assert (Forall (λ s, length s < chunk_size self) pieces →
          split_loop self recur [] pieces [] []
          = option_list (join_docs [concat pieces] [])) as Hsmall.
  { intros Hs. rewrite split_loop_all_small by done. simpl.
    destruct pieces as [|p pieces]; [done|].
    by rewrite merge_splits_fits. }
  destruct Hcase as [Hs|(f & -> & Hf)]; [by apply Hsmall|].
  destruct (pieces_small_or_whole pieces Hne Hfit) as [Hs|[Hone Hlen]];
    [by apply Hsmall|].
  rewrite Hone at 1. cbn [split_loop].
  rewrite Hlen, Nat.ltb_irrefl. simpl. done.
Qed.

(** A text no longer than the chunk size gives the text itself, stripped,
    as the only chunk, and no chunk when nothing but white space is in
    it. *)
Lemma _split_text_fits (seps : list str) (text : str) :
  1 < chunk_size self →
  last seps = Some [] →
  length text ≤ chunk_size self →
  _split_text self seps text = option_list (join_docs [text] []).
Proof.
  intros Hcs. revert text.
  induction seps as [|_s new_separators IH]; intros text Hlast Hfit; [done|].
  assert (∀ sep recur,
    (Forall (λ s, length s < chunk_size self) (split_text_with_regex text sep)
     ∨ ∃ f, recur = Some f ∧ f text = option_list (join_docs [text] [])) →
    split_loop self recur [] (split_text_with_regex text sep) [] []
    = option_list (join_docs [text] [])) as Hloop.
  { intros sep recur Hcase.
    pose proof (split_text_with_regex_concat text sep) as Hj.
    rewrite <- Hj at 2. apply split_loop_fits.
    - apply split_text_with_regex_nonempty.
    - by rewrite Hj.
    - by rewrite Hj. }
  cbn [_split_text]. destruct _s as [|a _s'].
  - apply Hloop. left.
    eapply Forall_impl; [apply split_text_with_regex_chars|].
    intros s Hs. simpl in Hs. lia.
  - destruct new_separators as [|s2 rest]; [done|].
    assert (last (s2 :: rest) = Some []) as Hlast' by done.
    destruct (contains (a :: _s') text).
    + apply Hloop. right. eexists. split; [done|]. by apply IH.
    + by apply IH.
Qed.

End fits.

(** *** No chunk is longer than the chunk size *)

Lemma lstrip_suffix (s : str) : lstrip s `suffix_of` s.
Proof.
  induction s as [|c t IH]; simpl; [done|].
  destruct (is_space c); [by apply suffix_cons_r | done].
Qed.

Lemma length_lstrip (s : str) : length (lstrip s) ≤ length s.
Proof. apply suffix_length, lstrip_suffix. Qed.

Lemma length_strip (s : str) : length (strip s) ≤ length s.
Proof.
  unfold strip, rstrip. rewrite length_reverse.
  etransitivity; [apply length_lstrip|]. rewrite length_reverse.
  apply length_lstrip.
Qed.

Lemma join_docs_length (docs : list str) (c : str) :
  join_docs docs [] = Some c → length c ≤ length (concat docs).
Proof.
  unfold join_docs. rewrite join_nil_sep.
  destruct (strip (concat docs)) eqn:E; [done|].
  intros [= <-]. rewrite <- E. apply length_strip.
Qed.

Section bound.
Context (self : t).

(** What the [while] loop of [_merge_splits] leaves: a suffix of the
    current document, [total] still its length, no longer than the overlap,
    and with room for the next piece unless nothing is left. *)
Lemma pop_front_spec (_len total : nat) (current_doc : list str) :
  total = length (concat current_doc) →
  ∃ total' current_doc',
    pop_front self [] _len total current_doc = (total', current_doc')
    ∧ total' = length (concat current_doc')
    ∧ current_doc' `suffix_of` current_doc
    ∧ total' ≤ chunk_overlap self
    ∧ (total' + _len ≤ chunk_size self ∨ total' = 0).
Proof.
  revert total. induction current_doc as [|first rest IH]; intros total Ht.
  - subst total. simpl. rewrite andb_false_r.
    exists 0, []. repeat split; [done | lia | by right].
  - cbn [pop_front]. rewrite !sep_if_nil.
    destruct ((chunk_overlap self <? total)
              || (chunk_size self <? total + _len + 0) && (0 <? total)) eqn:E.
    + cbn [concat] in Ht. rewrite length_app in Ht.
      destruct (IH (total - (length first + 0))) as (t' & cd' & -> & ? & ? & ? & ?);
        [lia|].
      exists t', cd'. repeat split; [done | by apply suffix_cons_r | done | done].
    + apply orb_false_iff in E as [E1 E2]. apply Nat.ltb_ge in E1.
      exists total, (first :: rest). repeat split; [done | done | done |].
      apply andb_false_iff in E2 as [E2|E2].
      * apply Nat.ltb_ge in E2. left. lia.
      * apply Nat.ltb_ge in E2. right. lia.
Qed.

Lemma merge_loop_short (splits docs current_doc : list str) (total : nat) :
  total = length (concat current_doc) →
  total ≤ chunk_size self →
  Forall (λ s, length s < chunk_size self) splits →
  Forall (short self) docs →
  Forall (short self) (merge_loop self [] splits docs current_doc total).
Proof.
  assert (∀ cd, length (concat cd) ≤ chunk_size self →
                Forall (short self) (option_list (join_docs cd []))) as Hjoin.
  { intros cd Hcd. destruct (join_docs cd []) as [c|] eqn:E; simpl; [|done].
    apply Forall_singleton. unfold short.
    apply join_docs_length in E. lia. }
  revert docs current_doc total.
  induction splits as [|d splits IH]; intros docs cd total Ht Hle Hsmall Hdocs.
  - simpl. apply Forall_app. split; [done|]. apply Hjoin. lia.
  - apply Forall_cons in Hsmall as [Hd Hsmall]. cbn [merge_loop].
    rewrite !sep_if_nil.
    destruct (chunk_size self <? total + length d + 0) eqn:E.
    + destruct cd as [|c0 cd0].
      * simpl in Ht. subst total. rewrite sep_if_nil.
        apply IH; [|simpl; lia|done|done].
        simpl. rewrite app_nil_r. lia.
      * destruct (pop_front_spec (length d) total (c0 :: cd0) Ht)
          as (t' & cd' & -> & Ht' & _ & _ & Hroom).
        rewrite sep_if_nil. apply IH; [| |done|].
        -- rewrite concat_app, length_app. simpl. rewrite app_nil_r. lia.
        -- lia.
        -- apply Forall_app. split; [done|]. apply Hjoin. lia.
    + apply Nat.ltb_ge in E. rewrite sep_if_nil. apply IH; [| |done|done].
      * rewrite concat_app, length_app. simpl. rewrite app_nil_r. lia.
      * lia.
Qed.

Lemma merge_splits_short (splits : list str) :
  Forall (λ s, length s < chunk_size self) splits →
  Forall (short self) (merge_splits self splits []).
Proof.
  intros Hs. unfold merge_splits. apply merge_loop_short; [done|simpl; lia|done|done].
Qed.

(** The loop of [_split_text] gives short chunks when the recursive call
    does; without a recursive call, when every piece is short already. *)
Lemma split_loop_short recur (splits final_chunks _good_splits : list str) :
  match recur with
  | Some f => ∀ s, Forall (short self) (f s)
  | None => Forall (λ s, length s < chunk_size self) splits
  end →
  Forall (short self) final_chunks →
  Forall (λ s, length s < chunk_size self) _good_splits →
  Forall (short self) (split_loop self recur [] splits final_chunks _good_splits).
Proof.
  revert final_chunks _good_splits.
  induction splits as [|s splits IH]; intros fc good Hrec Hfc Hgood.
  - simpl. destruct good; [done|].
    apply Forall_app. split; [done|]. by apply merge_splits_short.
  - cbn [split_loop]. destruct (length s <? chunk_size self) eqn:E.
    + apply Nat.ltb_lt in E. apply IH; [|done|].
      * destruct recur; [done|]. by apply Forall_cons in Hrec as [_ ?].
      * apply Forall_app. split; [done|]. by apply Forall_singleton.
    + apply Nat.ltb_ge in E. destruct recur as [f|].
      * apply IH; [done| |done].
        apply Forall_app. split; [|apply Hrec].
        destruct good; [done|].
        apply Forall_app. split; [done|]. by apply merge_splits_short.
      * apply Forall_cons in Hrec as [Hs _]. lia.
Qed.

Lemma _split_text_short (seps : list str) (text : str) :
  1 < chunk_size self →
  last seps = Some [] →
  Forall (short self) (_split_text self seps text).
Proof.
  intros Hcs. revert text.
  induction seps as [|_s new_separators IH]; intros text Hlast; [done|].
  cbn [_split_text]. destruct _s as [|a _s'].
  - apply split_loop_short; [|done|done].
    eapply Forall_impl; [apply split_text_with_regex_chars|].
    intros s Hs. simpl in Hs. lia.
  - destruct new_separators as [|s2 rest]; [done|].
    assert (last (s2 :: rest) = Some []) as Hlast' by done.
    destruct (contains (a :: _s') text).
    + apply split_loop_short; [|done|done]. intros s. by apply IH.
    + by apply IH.
Qed.

End bound.

(** *** How consecutive chunks overlap *)

Lemma concat_suffix (l1 l2 : list str) :
  l1 `suffix_of` l2 → concat l1 `suffix_of` concat l2.
Proof. intros [k ->]. rewrite concat_app. by eexists. Qed.

Lemma overlaps_weaken (limit : nat) (previous : str) (parts : list (str * str)) :
  overlaps limit [] parts → overlaps limit previous parts.
Proof.
  destruct parts as [|[carried added] rest]; [done|].
  intros (Hs & Hl & Hrest). apply suffix_nil_inv in Hs as ->.
  split; [apply suffix_nil|done].
Qed.

Lemma overlaps_app (limit : nat) (previous : str) (l1 l2 : list (str * str)) :
  overlaps limit previous l1 → overlaps limit [] l2 →
  overlaps limit previous (l1 ++ l2).
Proof.
  revert previous. induction l1 as [|[carried added] l1 IH]; intros previous.
  - intros _. apply overlaps_weaken.
  - intros (Hs & Hl & Hrest) H2. simpl. auto.
Qed.

Section parts.
Context (self : t).

Lemma omap_chunk_of_parts_singleton (carried added : list str) :
  omap chunk_of_parts [(concat carried, concat added)]
  = option_list (join_docs (carried ++ added) []).
Proof.
  rewrite join_docs_concat, concat_app. unfold chunk_of_parts. cbn.
  by destruct (join_docs _ _).
Qed.

(** The merge loop and its parts: the chunks are the parts, stripped; the
    new parts are the pieces, none lost and none twice; every carried part
    ends the text before it and is no longer than the overlap. *)
Lemma merge_loop_parts_spec (splits docs carried added : list str)
    (total : nat) (previous : str) :
  total = length (concat (carried ++ added)) →
  concat carried `suffix_of` previous →
  length (concat carried) ≤ chunk_overlap self →
  merge_loop self [] splits docs (carried ++ added) total
  = docs ++ omap chunk_of_parts (merge_loop_parts self splits carried added total)
  ∧ concat (merge_loop_parts self splits carried added total).*2
    = concat added ++ concat splits
  ∧ overlaps (chunk_overlap self) previous
      (merge_loop_parts self splits carried added total).
Proof.
  revert docs carried added total previous.
  induction splits as [|d splits IH]; intros docs carried added total previous
    Ht Hsuf Hlen.
  - cbn [merge_loop merge_loop_parts].
    rewrite omap_chunk_of_parts_singleton. cbn. rewrite !app_nil_r.
    repeat split; done.
  - assert (∀ docs',
      merge_loop self [] splits docs' ((carried ++ added) ++ [d])
        (total + length d + 0)
      = docs' ++ omap chunk_of_parts
                   (merge_loop_parts self splits carried (added ++ [d])
                      (total + length d))
      ∧ concat (merge_loop_parts self splits carried (added ++ [d])
                  (total + length d)).*2
        = concat added ++ concat (d :: splits)
      ∧ overlaps (chunk_overlap self) previous
          (merge_loop_parts self splits carried (added ++ [d])
             (total + length d))) as Hkeep.
    { intros docs'. rewrite <- (assoc_L (++)), Nat.add_0_r.
      destruct (IH docs' carried (added ++ [d]) (total + length d) previous)
        as (H1 & H2 & H3); [|done|done|].
      - rewrite (assoc_L (++)), concat_app, length_app. simpl.
        rewrite app_nil_r. lia.
      - split; [done|]. split; [|done].
        rewrite H2, concat_app. simpl. by rewrite app_nil_r, <- (assoc_L (++)). }
    cbn [merge_loop merge_loop_parts]. rewrite !sep_if_nil.
    destruct (chunk_size self <? total + length d + 0) eqn:E;
      [|rewrite sep_if_nil; apply Hkeep].
    destruct (carried ++ added) as [|c0 cd0] eqn:Ecd;
      [rewrite sep_if_nil; apply Hkeep|].
    destruct (pop_front_spec self (length d) total (c0 :: cd0))
      as (t' & kept & Hpop & Ht' & Hkept & Hov & _).
    { done. }
    assert (concat carried ++ concat added = concat (c0 :: cd0)) as Hcat
      by (by rewrite <- Ecd, concat_app).
    rewrite Hpop, sep_if_nil.
    destruct (IH (docs ++ option_list (join_docs (c0 :: cd0) [])) kept [d]
                (t' + length d) (concat carried ++ concat added))
      as (H1 & H2 & H3).
    + rewrite concat_app, length_app. simpl. rewrite app_nil_r. lia.
    + rewrite Hcat. by apply concat_suffix.
    + lia.
    + rewrite Nat.add_0_r. split; [|split].
      * rewrite H1, <- (assoc_L (++)). f_equal. cbn [omap list_omap].
        change (chunk_of_parts (concat carried, concat added))
          with (join_docs [concat carried ++ concat added] []).
        rewrite Hcat, <- join_docs_concat.
        by destruct (join_docs (c0 :: cd0) []).
      * cbn [fmap list_fmap concat snd]. rewrite H2. simpl.
        by rewrite app_nil_r.
      * cbn [overlaps]. split; [done|]. split; [done|]. exact H3.
Qed.

Lemma describes_nil : describes self [] [] [].
Proof. done. Qed.

Lemma describes_app (t1 t2 : str) (c1 c2 : list str) (p1 p2 : list (str * str)) :
  describes self t1 c1 p1 → describes self t2 c2 p2 →
  describes self (t1 ++ t2) (c1 ++ c2) (p1 ++ p2).
Proof.
  intros (-> & <- & H1) (-> & <- & H2). split; [|split].
  - by rewrite omap_app.
  - by rewrite fmap_app, concat_app.
  - by apply overlaps_app.
Qed.

Lemma merge_splits_parts_spec (splits : list str) :
  describes self (concat splits) (merge_splits self splits [])
    (merge_splits_parts self splits).
Proof.
  destruct (merge_loop_parts_spec splits [] [] [] 0 [])
    as (H1 & H2 & H3); [done|done|simpl; lia|].
  split; [exact H1|]. split; [exact H2|exact H3].
Qed.

Lemma split_loop_parts_spec recur recur_parts (splits : list str)
    (final_chunks : list str) (final_parts : list (str * str))
    (_good_splits : list str) (done_text : str) :
  match recur, recur_parts with
  | Some f, Some g => ∀ s, describes self s (f s) (g s)
  | None, None => Forall (λ s, length s < chunk_size self) splits
  | _, _ => False
  end →
  describes self done_text final_chunks final_parts →
  describes self (done_text ++ concat _good_splits ++ concat splits)
    (split_loop self recur [] splits final_chunks _good_splits)
    (split_loop_parts self recur_parts splits final_parts _good_splits).
Proof.
  revert final_chunks final_parts _good_splits done_text.
  induction splits as [|s splits IH];
    intros final_chunks final_parts good done_text Hrec Hdone.
  - cbn [split_loop split_loop_parts concat]. rewrite app_nil_r.
    destruct good as [|g good].
    + by rewrite app_nil_r.
    + apply describes_app; [done|]. apply merge_splits_parts_spec.
  - cbn [split_loop split_loop_parts].
    destruct (length s <? chunk_size self) eqn:E.
    + replace (done_text ++ concat good ++ concat (s :: splits))
        with (done_text ++ concat (good ++ [s]) ++ concat splits).
      2:{ rewrite concat_app. simpl. by rewrite app_nil_r, <- (assoc_L (++)). }
      apply IH; [|done].
      destruct recur, recur_parts; try done.
      by apply Forall_cons in Hrec as [_ ?].
    + apply Nat.ltb_ge in E.
      destruct recur as [f|], recur_parts as [g|]; try done.
      2:{ apply Forall_cons in Hrec as [Hs _]. lia. }
      replace (done_text ++ concat good ++ concat (s :: splits))
        with (((done_text ++ concat good) ++ s) ++ concat [] ++ concat splits).
      2:{ simpl. by rewrite <- !(assoc_L (++)). }
      apply IH; [done|]. apply describes_app; [|apply Hrec].
      destruct good as [|g0 good].
      * simpl. by rewrite app_nil_r.
      * apply describes_app; [done|]. apply merge_splits_parts_spec.
Qed.

Lemma _split_text_parts_spec (seps : list str) (text : str) :
  1 < chunk_size self →
  last seps = Some [] →
  describes self text (_split_text self seps text) (_split_text_parts self seps text).
Proof.
  intros Hcs. revert text.
  induction seps as [|_s new_separators IH]; intros text Hlast; [done|].
  assert (∀ sep recur recur_parts,
    match recur, recur_parts with
    | Some f, Some g => ∀ s, describes self s (f s) (g s)
    | None, None =>
        Forall (λ s, length s < chunk_size self) (split_text_with_regex text sep)
    | _, _ => False
    end →
    describes self text
      (split_loop self recur [] (split_text_with_regex text sep) [] [])
      (split_loop_parts self recur_parts (split_text_with_regex text sep) [] []))
    as Hloop.
  { intros sep recur recur_parts Hrec.
    pose proof (split_loop_parts_spec recur recur_parts
                  (split_text_with_regex text sep) [] [] [] [] Hrec describes_nil)
      as H.
    simpl in H. by rewrite split_text_with_regex_concat in H. }
  cbn [_split_text _split_text_parts]. destruct _s as [|a _s'].
  - apply Hloop.
    eapply Forall_impl; [apply split_text_with_regex_chars|].
    intros s Hs. simpl in Hs. lia.
  - destruct new_separators as [|s2 rest]; [done|].
    assert (last (s2 :: rest) = Some []) as Hlast' by done.
    destruct (contains (a :: _s') text).
    + apply Hloop. intros s. by apply IH.
    + by apply IH.
Qed.

End parts.

End SplitterFacts.

(** ** Running the handlers *)

Ltac run :=
  unfold upload_pdf, ask_question, handle, process_pdf, create_chroma_store,
    load_chroma_store, qa_ret, rag_chain_invoke, retriever, model_invoke,
    NamedTemporaryFile, file_write, os_remove, print, try_except, bind, ret,
    call, on_disk;
  cbn [fst snd files persisted llm_draws stdout].

Ltac step := cbn [fst snd files persisted llm_draws stdout].

(** The name [NamedTemporaryFile] picks is the name of no file. *)
Lemma temp_name_fresh (w : World) : files w !! fresh (dom (files w)) = None.
Proof. apply not_elem_of_dom, is_fresh. Qed.

Lemma length_create_documents (self : TextSplitter.t) (text : str) :
  length (create_documents self [text]) = length (TextSplitter.split_text self text).
Proof.
  unfold create_documents. cbn. by rewrite app_nil_r, length_fmap.
Qed.

(** ** The answering call *)

(** C2: for every question [qa_ret] returns a string and never raises: the
    answer of the model when every step succeeds, and the string "Error: "
    followed by the message when creating the model, embedding the query and
    retrieving, or generating raises. *)
Theorem C2_qa_ret_returns_a_string (env : Env) (vector_store : Chroma)
    (input_query : str) (w : World) :
  (qa_ret env vector_store input_query w).1 =
  Ok match ChatOpenAI env "gpt-4o-mini" (7 # 10)%Q (OPENAI_API_KEY env) 512 with
     | Raise ex => lit "Error: " ++ ex
     | Ok model =>
         match retriever_invoke env vector_store 4 input_query (persisted w) with
         | (Raise ex, _) => lit "Error: " ++ ex
         | (Ok context, _) =>
             match generate model
                     (template_head ++ format_context env context
                      ++ template_middle ++ input_query ++ template_tail)
                     (llm_draws w) with
             | Raise ex => lit "Error: " ++ ex
             | Ok response => response
             end
         end
     end.
Proof.
  run. destruct (ChatOpenAI env _ _ _ _) as [model|ex]; [|done].
  destruct (retriever_invoke env _ _ _ _) as [[context|ex] d]; [|done].
  step. by destruct (generate model _ _).
Qed.

(** With the language model down the answer is the error, as a string. *)
Example qa_ret_model_down :
  (qa_ret Demo.env_llm_down
     {| _embedding_function := Demo.embeddings; _persist_directory := "chroma_db" |}
     (lit "What is the capital?") Demo.fresh_world).1
  = Ok (lit "Error: Connection error.").
Proof. by vm_compute. Qed.

(** ** Opening the index on the query path *)

(** C1 (as the code has it): [ask_question] makes no check of its own that an
    index exists.  It takes what the constructor of the vector store does for
    the location "chroma_db": when that raises with a message, [qa_ret] is
    not called and the request fails with status 500 and the detail "Failed
    to retrieve answer: " followed by the message; when it gives a handle,
    the query goes on and an answer is returned. *)
Theorem C1_open_is_not_checked (env : Env) (embedding_model : Embeddings)
    (question_request : QuestionRequest) (w : World) :
  HuggingFaceEmbeddings env "Lajavaness/bilingual-embedding-small"
    = Ok embedding_model →
  match Chroma_init env embedding_model "chroma_db" (persisted w) with
  | (Raise message, _) =>
      (ask_question env question_request w).1
      = HTTPException 500 (lit "Failed to retrieve answer: " ++ message)
  | (Ok vector_store, _) =>
      ∃ answer, (ask_question env question_request w).1
                = Return {[ "answer" := answer ]}
  end.
Proof.
  intros Hemb. run. rewrite Hemb.
  destruct (Chroma_init env _ _ _) as [[vector_store|message] d]; [|done].
  step. destruct (ChatOpenAI env _ _ _ _) as [model|ex]; [|by eexists].
  destruct (retriever_invoke env _ _ _ _) as [[context|ex] d']; [|by eexists].
  step. destruct (generate model _ _); by eexists.
Qed.

(** With a vector store whose constructor fails on a missing index, a
    question asked before any upload is refused with status 500. *)
Lemma C1_open_is_not_checked_witness :
  (ask_question Demo.env_strict {| question := lit "What is the capital?" |}
     Demo.fresh_world).1
  = HTTPException 500 (lit "Failed to retrieve answer: IndexNotFound").
Proof.
  exact (C1_open_is_not_checked Demo.env_strict Demo.embeddings
           {| question := lit "What is the capital?" |} Demo.fresh_world
           eq_refl).
Defined.

(** With a vector store whose constructor creates the missing index, as the
    library's does, a question asked before any upload is answered: nothing
    in the program turns the missing index into a failure. *)
Lemma C1_missing_index_is_answered :
  persisted Demo.fresh_world !! "chroma_db" = None
  ∧ (ask_question Demo.env_creating {| question := lit "What is the capital?" |}
       Demo.fresh_world).1
    = Return {[ "answer" := lit "It is Paris." ]}.
Proof. split; [done | by vm_compute]. Qed.

(** ** The temporary file of an upload *)

(** C10: the temporary file that [upload_pdf] writes is removed on the
    success path only.  Whenever the handler ends in an error, in particular
    when chunking or building the index raised, the file is still there with
    the uploaded content; when the handler returns, it is gone. *)
Theorem C10_temp_file_removed_only_on_success (env : Env) (file : UploadFile)
    (w : World) :
  let temp_file_path := fresh (dom (files w)) in
  files w !! temp_file_path = None
  ∧ match (upload_pdf env file w).1 with
    | Return _ => files (upload_pdf env file w).2 !! temp_file_path = None
    | HTTPException _ _ =>
        files (upload_pdf env file w).2 !! temp_file_path = Some (content file)
    end.
Proof.
  intros temp_file_path. split; [apply temp_name_fresh|].
  run. fold temp_file_path. rewrite lookup_insert_eq.
  destruct (PyPDFLoader_load env _) as [pages|e]; step;
    [|by rewrite lookup_insert_eq].
  destruct (HuggingFaceEmbeddings env _) as [embedding_model|e]; step;
    [|by rewrite lookup_insert_eq].
  destruct (Chroma_from_documents env _ _ _ _) as [[vectorstore|e] d]; step;
    [|by rewrite lookup_insert_eq].
  rewrite lookup_insert_eq. step. by rewrite lookup_delete_eq.
Qed.

(** ** What an upload reports *)

(** C3 (as the code has it): a successful upload returns the fixed message
    and nothing else, in particular no chunk count.  The number of chunks the
    document was split into is only printed, in the line "Number of document
    chunks: n". *)
Theorem C3_upload_reports_the_message_only (env : Env) (file : UploadFile)
    (w : World) (body : gmap string str) :
  (upload_pdf env file w).1 = Return body →
  body = {[ "message" := lit "PDF successfully processed and stored in vector DB" ]}
  ∧ body !! "chunk_count" = None
  ∧ ∃ pages,
      PyPDFLoader_load env (Some (content file)) = Ok pages
      ∧ [PStr (lit "Number of document chunks:");
         PInt (Z.of_nat (length (TextSplitter.split_text text_splitter
                                   (concat (page_content <$> pages)))))]
        ∈ stdout (upload_pdf env file w).2.
Proof.
  run. rewrite lookup_insert_eq.
  destruct (PyPDFLoader_load env _) as [pages|e]; step; [|done].
  destruct (HuggingFaceEmbeddings env _) as [embedding_model|e]; step; [|done].
  destruct (Chroma_from_documents env _ _ _ _) as [[vectorstore|e] d]; step;
    [|done].
  rewrite lookup_insert_eq. step. intros [= <-].
  split; [done|]. split; [done|]. exists pages. split; [done|].
  rewrite <- length_create_documents.
  rewrite !elem_of_app, !list_elem_of_singleton. tauto.
Qed.

(** The upload of the Paris document: one chunk, printed, not returned. *)
Lemma C3_upload_reports_the_message_only_witness :
  (upload_pdf Demo.env_creating Demo.paris Demo.fresh_world).1
  = Return {[ "message" := lit "PDF successfully processed and stored in vector DB" ]}
  ∧ [PStr (lit "Number of document chunks:"); PInt 1]
    ∈ stdout (upload_pdf Demo.env_creating Demo.paris Demo.fresh_world).2.
Proof.
  assert ((upload_pdf Demo.env_creating Demo.paris Demo.fresh_world).1
          = Return {[ "message" :=
                        lit "PDF successfully processed and stored in vector DB" ]})
    as Hok by (by vm_compute).
  split; [exact Hok|].
  destruct (C3_upload_reports_the_message_only _ _ _ _ Hok)
    as (_ & _ & pages & Hpages & Hlog).
  injection Hpages as <-. exact Hlog.
Defined.

(** A successful upload whose result holds no chunk count. *)
Lemma C3_result_without_chunk_count :
  ∃ body, (upload_pdf Demo.env_creating Demo.paris Demo.fresh_world).1 = Return body
          ∧ body !! "chunk_count" = None.
Proof. eexists. split; [by vm_compute | done]. Qed.

(** ** A document without text *)

(** C7 (as the code has it): [upload_pdf] does not look at the number of
    chunks.  For a document that gives no chunk it calls the index build with
    the empty list and reports what the build does: the usual success message
    when the build returns, status 500 with "Failed to process PDF: " and the
    message of the build when it raises. *)
Theorem C7_empty_document_is_not_checked (env : Env) (file : UploadFile)
    (w : World) (pages : list Document) (embedding_model : Embeddings) :
  PyPDFLoader_load env (Some (content file)) = Ok pages →
  TextSplitter.split_text text_splitter (concat (page_content <$> pages)) = [] →
  HuggingFaceEmbeddings env "Lajavaness/bilingual-embedding-small"
    = Ok embedding_model →
  match Chroma_from_documents env [] embedding_model "chroma_db" (persisted w) with
  | (Ok _, _) =>
      (upload_pdf env file w).1
      = Return {[ "message" :=
                    lit "PDF successfully processed and stored in vector DB" ]}
  | (Raise message, _) =>
      (upload_pdf env file w).1
      = HTTPException 500 (lit "Failed to process PDF: " ++ message)
  end.
Proof.
  intros Hpages Hnone Hemb. run. rewrite lookup_insert_eq, Hpages. step.
  rewrite Hemb. step. unfold create_documents. cbn [mbind list_bind]. rewrite Hnone. cbn [fmap list_fmap app].
  destruct (Chroma_from_documents env _ _ _ _) as [[vectorstore|e] d]; step;
    [|done].
  by rewrite lookup_insert_eq.
Qed.

(** A scanned document, from which no text comes, is stored with success. *)
Lemma C7_empty_document_is_not_checked_witness :
  (upload_pdf Demo.env_creating Demo.scanned Demo.fresh_world).1
  = Return {[ "message" := lit "PDF successfully processed and stored in vector DB" ]}.
Proof.
  exact (C7_empty_document_is_not_checked Demo.env_creating Demo.scanned
           Demo.fresh_world _ Demo.embeddings eq_refl eq_refl eq_refl).
Defined.

(** The upload of a document without text is accepted, and an index without
    any entry is created for it without a word. *)
Lemma C7_empty_document_is_accepted :
  (process_pdf Demo.env_creating "scan.pdf"
     {| files := {[ "scan.pdf" := content Demo.scanned ]}; persisted := ∅;
        llm_draws := 0; stdout := [] |}).1 = Ok []
  ∧ (upload_pdf Demo.env_creating Demo.scanned Demo.fresh_world).1
    = Return {[ "message" := lit "PDF successfully processed and stored in vector DB" ]}
  ∧ persisted (upload_pdf Demo.env_creating Demo.scanned Demo.fresh_world).2
      !! "chroma_db" = Some [].
Proof. repeat split; by vm_compute. Qed.

(** ** The vector index *)

Module IndexFacts.
Import VectorIndex.

Section ranking.
Context (distance : vector → vector → Z).

Lemma insert_ranked_Permutation (q : vector) (x : str * vector)
    (ranked : list (str * vector)) :
  insert_ranked distance q x ranked ≡ₚ x :: ranked.
Proof.
  induction ranked as [|y rest IH]; simpl; [done|].
  destruct (distance q x.2 <=? distance q y.2)%Z; [done|].
  rewrite IH. apply Permutation_swap.
Qed.

(** Ranking loses and invents nothing. *)
Lemma rank_Permutation (q : vector) (index : list (str * vector)) :
  rank distance q index ≡ₚ index.
Proof.
  induction index as [|x index IH]; simpl; [done|].
  by rewrite insert_ranked_Permutation, IH.
Qed.

Lemma length_similarity_search (q : vector) (k : nat)
    (index : list (str * vector)) :
  length (similarity_search distance q k index) = k `min` length index.
Proof.
  unfold similarity_search.
  by rewrite length_fmap, length_take, (Permutation_length (rank_Permutation q index)).
Qed.

Lemma similarity_search_from_index (q : vector) (k : nat)
    (index : list (str * vector)) (c : Document) :
  c ∈ similarity_search distance q k index → page_content c ∈ index.*1.
Proof.
  unfold similarity_search. intros Hc.
  apply list_elem_of_fmap in Hc as (e & -> & He).
  apply list_elem_of_fmap. exists e. split; [done|].
  rewrite <- (rank_Permutation q index).
  apply elem_of_take in He as (i & Hi & _).
  apply list_elem_of_lookup. eauto.
Qed.

(** The ranking is in order of distance to the query. *)
Lemma insert_ranked_sorted (q : vector) (x : str * vector)
    (ranked : list (str * vector)) :
  Sorted (λ a b, (distance q a.2 ≤ distance q b.2)%Z) ranked →
  Sorted (λ a b, (distance q a.2 ≤ distance q b.2)%Z)
    (insert_ranked distance q x ranked).
Proof.
  induction 1 as [|y rest Hs IH Hhd]; simpl; [by repeat constructor|].
  destruct (distance q x.2 <=? distance q y.2)%Z eqn:E.
  - apply Z.leb_le in E. by repeat constructor.
  - apply Z.leb_gt in E. constructor; [done|].
    destruct Hhd as [|z rest' Hyz]; simpl.
    + constructor. lia.
    + destruct (distance q x.2 <=? distance q z.2)%Z; constructor; [lia|done].
Qed.

Lemma rank_sorted (q : vector) (index : list (str * vector)) :
  Sorted (λ a b, (distance q a.2 ≤ distance q b.2)%Z) (rank distance q index).
Proof.
  induction index as [|x index IH]; simpl; [constructor|].
  by apply insert_ranked_sorted.
Qed.

End ranking.

End IndexFacts.

Ltac run_index :=
  run;
  cbn [VectorIndex.install Chroma_from_documents Chroma_init retriever_invoke
       HuggingFaceEmbeddings PyPDFLoader_load ChatOpenAI OPENAI_API_KEY
       format_context].

(** ** Retrieval *)

(** The retriever on the vector index: the four closest entries, the world
    unchanged. *)
Lemma retriever_on_index (base : Env) (create_if_missing : bool)
    (distance : vector → vector → Z) (vector_store : Chroma) (query : str)
    (q : vector) (w : World) :
  embed_query (_embedding_function vector_store) query = Ok q →
  retriever (VectorIndex.install create_if_missing distance base)
    vector_store query w
  = (Ok (VectorIndex.similarity_search distance q 4
           (VectorIndex.entries (persisted w) (_persist_directory vector_store))),
     w).
Proof.
  intros Hq. run_index. unfold VectorIndex.retrieve. rewrite Hq.
  destruct w; reflexivity.
Qed.

(** C8: the retriever of [qa_ret] asks for k = 4.  On the vector index it
    gives, for every query that can be embedded, exactly the smaller of 4
    and the number of entries of the index, each of them a chunk of the
    index: at most four chunks, fewer from a smaller index, none from an empty
    one, and no failure for that; the index is left as it was. *)
Theorem C8_retrieval_gives_at_most_four (base : Env) (create_if_missing : bool)
    (distance : vector → vector → Z) (vector_store : Chroma) (query : str)
    (q : vector) (w : World) :
  let env := VectorIndex.install create_if_missing distance base in
  let index :=
    VectorIndex.entries (persisted w) (_persist_directory vector_store) in
  embed_query (_embedding_function vector_store) query = Ok q →
  ∃ chunks,
    retriever env vector_store query w = (Ok chunks, w)
    ∧ chunks = VectorIndex.similarity_search distance q 4 index
    ∧ length chunks = 4 `min` length index
    ∧ length chunks ≤ 4
    ∧ (index = [] → chunks = [])
    ∧ ∀ c, c ∈ chunks → page_content c ∈ index.*1.
Proof.
  intros env index Hq. eexists. split; [|split; [reflexivity|]].
  - by apply retriever_on_index.
  - fold index. rewrite IndexFacts.length_similarity_search.
    split; [done|]. split; [lia|]. split.
    + by intros ->.
    + intros c. apply IndexFacts.similarity_search_from_index.
Qed.

(** Against an index of one chunk the retriever gives that chunk. *)
Lemma C8_retrieval_gives_at_most_four_witness :
  (retriever Demo.env_creating
     {| _embedding_function := Demo.embeddings; _persist_directory := "chroma_db" |}
     (lit "capital?")
     (upload_pdf Demo.env_creating Demo.paris Demo.fresh_world).2).1
  = Ok [{| page_content :=
             lit "Paris is the capital of France. It is known for the Eiffel Tower.";
           metadata := ∅ |}].
Proof.
  destruct (C8_retrieval_gives_at_most_four (Demo.libraries Demo.chat) true
              Demo.distance
              {| _embedding_function := Demo.embeddings;
                 _persist_directory := "chroma_db" |}
              (lit "capital?") [8%Z]
              (upload_pdf Demo.env_creating Demo.paris Demo.fresh_world).2
              eq_refl)
    as (chunks & Hret & -> & _).
  change (VectorIndex.install true Demo.distance (Demo.libraries Demo.chat))
    with Demo.env_creating in Hret.
  rewrite Hret. by vm_compute.
Defined.

(** ** Uploads add to the index *)

Lemma page_content_create_documents (self : TextSplitter.t) (text : str) :
  page_content <$> create_documents self [text] = TextSplitter.split_text self text.
Proof.
  unfold create_documents. cbn [mbind list_bind]. rewrite app_nil_r.
  rewrite <- list_fmap_compose. apply list_fmap_id.
Qed.

(** What a successful upload does to the index at "chroma_db": the chunks of
    the document, each with its vector, are put behind what was there. *)
Lemma upload_pdf_appends (base : Env) (create_if_missing : bool)
    (distance : vector → vector → Z) (file : UploadFile) (w : World)
    (body : gmap string str) :
  let env := VectorIndex.install create_if_missing distance base in
  (upload_pdf env file w).1 = Return body →
  ∃ pages vectors,
    PyPDFLoader_load base (Some (content file)) = Ok pages
    ∧ length vectors
      = length (TextSplitter.split_text text_splitter
                  (concat (page_content <$> pages)))
    ∧ VectorIndex.entries (persisted (upload_pdf env file w).2) "chroma_db"
      = VectorIndex.entries (persisted w) "chroma_db"
        ++ zip (TextSplitter.split_text text_splitter
                  (concat (page_content <$> pages))) vectors.
Proof.
  intros env. subst env. run_index. rewrite lookup_insert_eq.
  destruct (PyPDFLoader_load base _) as [pages|e]; step; [|done].
  destruct (HuggingFaceEmbeddings base _) as [embedding_model|e]; step; [|done].
  unfold VectorIndex.from_documents. rewrite page_content_create_documents.
  destruct (embed_documents embedding_model _) as [vectors|e]; step; [|done].
  case_bool_decide as Hlen; step; [|done].
  rewrite lookup_insert_eq. step. intros _.
  exists pages, vectors. split; [done|]. split; [done|].
  unfold VectorIndex.entries at 1. by rewrite lookup_insert_eq.
Qed.

(** C4: two uploads at the same location add up.  After a document A and
    then a document B were uploaded with success, the index holds what it
    held before, then the chunks of A, then the chunks of B; a later query
    is answered from the ranking of all of them, so that any chunk of A or
    of B is among the candidates of which the four closest are retrieved. *)
Theorem C4_uploads_accumulate (base : Env) (create_if_missing : bool)
    (distance : vector → vector → Z) (file_a file_b : UploadFile) (w : World)
    (body_a body_b : gmap string str) :
  let env := VectorIndex.install create_if_missing distance base in
  let w_a := (upload_pdf env file_a w).2 in
  let w_b := (upload_pdf env file_b w_a).2 in
  (upload_pdf env file_a w).1 = Return body_a →
  (upload_pdf env file_b w_a).1 = Return body_b →
  ∃ pages_a pages_b entries_a entries_b,
    PyPDFLoader_load base (Some (content file_a)) = Ok pages_a
    ∧ PyPDFLoader_load base (Some (content file_b)) = Ok pages_b
    ∧ entries_a.*1 = TextSplitter.split_text text_splitter
                       (concat (page_content <$> pages_a))
    ∧ entries_b.*1 = TextSplitter.split_text text_splitter
                       (concat (page_content <$> pages_b))
    ∧ VectorIndex.entries (persisted w_b) "chroma_db"
      = VectorIndex.entries (persisted w) "chroma_db" ++ entries_a ++ entries_b
    ∧ ∀ embedding query q,
        embed_query embedding query = Ok q →
        (retriever env {| _embedding_function := embedding;
                          _persist_directory := "chroma_db" |} query w_b).1
        = Ok ((λ e, {| page_content := e.1; metadata := ∅ |})
                <$> take 4 (VectorIndex.rank distance q
                              (VectorIndex.entries (persisted w_b) "chroma_db")))
        ∧ ∀ e, e ∈ entries_a ++ entries_b →
               e ∈ VectorIndex.rank distance q
                     (VectorIndex.entries (persisted w_b) "chroma_db").
Proof.
  intros env w_a w_b Ha Hb.
  destruct (upload_pdf_appends base create_if_missing distance file_a w body_a Ha)
    as (pages_a & vectors_a & Hpa & Hla & Hea).
  destruct (upload_pdf_appends base create_if_missing distance file_b w_a body_b Hb)
    as (pages_b & vectors_b & Hpb & Hlb & Heb).
  fold env in Hea, Heb. fold w_a in Hea, Heb. fold w_b in Heb.
  exists pages_a, pages_b,
    (zip (TextSplitter.split_text text_splitter (concat (page_content <$> pages_a)))
         vectors_a),
    (zip (TextSplitter.split_text text_splitter (concat (page_content <$> pages_b)))
         vectors_b).
  split; [done|]. split; [done|].
  split; [by apply fst_zip; lia|]. split; [by apply fst_zip; lia|].
  split; [by rewrite Heb, Hea, <- (assoc_L (++))|].
  intros embedding query q Hq.
  pose proof (retriever_on_index base create_if_missing distance
                {| _embedding_function := embedding;
                   _persist_directory := "chroma_db" |}
                query q w_b Hq) as Hret.
  split; [unfold env; rewrite Hret; reflexivity|].
  intros e He. rewrite IndexFacts.rank_Permutation, Heb, Hea.
  rewrite <- (assoc_L (++)). apply elem_of_app. by right.
Qed.

(** The Paris document and then the Berlin document: the index holds a chunk
    of each, and a query retrieves both. *)
Lemma C4_uploads_accumulate_witness :
  let w_a := (upload_pdf Demo.env_creating Demo.paris Demo.fresh_world).2 in
  let w_b := (upload_pdf Demo.env_creating Demo.berlin w_a).2 in
  (VectorIndex.entries (persisted w_b) "chroma_db").*1
  = [lit "Paris is the capital of France. It is known for the Eiffel Tower.";
     lit "Berlin is the capital of Germany."]
  ∧ (retriever Demo.env_creating
       {| _embedding_function := Demo.embeddings; _persist_directory := "chroma_db" |}
       (lit "Which city is the capital of Germany?") w_b).1
    = Ok [{| page_content := lit "Berlin is the capital of Germany.";
             metadata := ∅ |};
          {| page_content :=
               lit "Paris is the capital of France. It is known for the Eiffel Tower.";
             metadata := ∅ |}].
Proof.
  intros w_a w_b.
  destruct (C4_uploads_accumulate (Demo.libraries Demo.chat) true Demo.distance
              Demo.paris Demo.berlin Demo.fresh_world
              {[ "message" := lit "PDF successfully processed and stored in vector DB" ]}
              {[ "message" := lit "PDF successfully processed and stored in vector DB" ]})
    as (pages_a & pages_b & entries_a & entries_b & Hpa & Hpb & Ha & Hb & Hall & Hq).
  { by vm_compute. }
  { by vm_compute. }
  split; [by vm_compute|].
  destruct (Hq Demo.embeddings (lit "Which city is the capital of Germany?")
              [37%Z] eq_refl) as [Hr _].
  etransitivity; [exact Hr|]. by vm_compute.
Defined.

(** ** The query path leaves the index alone *)

Lemma entries_create_empty (d : Disk) (k persist_directory : string) :
  d !! k = None →
  VectorIndex.entries (<[k := []]> d) persist_directory
  = VectorIndex.entries d persist_directory.
Proof.
  intros Hk. unfold VectorIndex.entries.
  destruct (decide (k = persist_directory)) as [<-|Hne].
  - by rewrite lookup_insert_eq, Hk.
  - by rewrite lookup_insert_ne.
Qed.

(** Opening the index: the handle for "chroma_db", or no handle; the stored
    entries are the same afterwards, and the storage itself is unchanged
    unless an empty index was created at a location that had none. *)
Lemma load_chroma_store_spec (base : Env) (create_if_missing : bool)
    (distance : vector → vector → Z) (embedding_model : Embeddings) (w : World) :
  let env := VectorIndex.install create_if_missing distance base in
  ∃ r d,
    load_chroma_store env embedding_model w
    = (r, {| files := files w; persisted := d;
             llm_draws := llm_draws w; stdout := stdout w |})
    ∧ (∀ persist_directory,
         VectorIndex.entries d persist_directory
         = VectorIndex.entries (persisted w) persist_directory)
    ∧ (is_Some (persisted w !! "chroma_db") ∨ create_if_missing = false →
       d = persisted w)
    ∧ match r with
      | Ok vector_store =>
          vector_store = {| _embedding_function := embedding_model;
                            _persist_directory := "chroma_db" |}
          ∧ is_Some (d !! "chroma_db")
      | Raise _ => persisted w !! "chroma_db" = None
      end.
Proof.
  intros env. subst env. run_index. unfold VectorIndex.init.
  destruct (persisted w !! "chroma_db") as [index|] eqn:E.
  - exists (Ok {| _embedding_function := embedding_model;
                  _persist_directory := "chroma_db" |}), (persisted w).
    repeat split; eauto.
  - destruct create_if_missing.
    + eexists (Ok _), _. split; [reflexivity|]. split.
      { intros dir. by apply entries_create_empty. }
      split.
      { intros [[? [=]]|[=]]. }
      split; [done|]. rewrite lookup_insert_eq. eauto.
    + eexists (Raise _), _. split; [reflexivity|]. repeat split; done.
Qed.

(** Answering through a handle leaves files and storage as they are. *)
Lemma qa_ret_frame (base : Env) (create_if_missing : bool)
    (distance : vector → vector → Z) (vector_store : Chroma) (query : str)
    (w : World) :
  let env := VectorIndex.install create_if_missing distance base in
  persisted (qa_ret env vector_store query w).2 = persisted w
  ∧ files (qa_ret env vector_store query w).2 = files w.
Proof.
  intros env. subst env. run_index.
  destruct (ChatOpenAI base _ _ _ _) as [model|ex]; [|done].
  unfold VectorIndex.retrieve.
  destruct (embed_query _ _) as [q|ex]; step; [|done].
  by destruct (generate model _ _).
Qed.

(** C9: the query path does not change what is stored.  After
    [ask_question], whatever its outcome, every location holds the entries it
    held before and the files are the same; when the index existed the
    storage is unchanged altogether.  A second opening of the index, with no
    build in between, succeeds, changes nothing, and gives a handle that
    answers every query as the first one does. *)
Theorem C9_query_path_reads_only (base : Env) (create_if_missing : bool)
    (distance : vector → vector → Z) (question_request : QuestionRequest)
    (embedding_model : Embeddings) (w : World) :
  let env := VectorIndex.install create_if_missing distance base in
  let w' := (ask_question env question_request w).2 in
  (∀ persist_directory,
     VectorIndex.entries (persisted w') persist_directory
     = VectorIndex.entries (persisted w) persist_directory)
  ∧ files w' = files w
  ∧ (is_Some (persisted w !! "chroma_db") → persisted w' = persisted w)
  ∧ match load_chroma_store env embedding_model w with
    | (Raise _, w1) => w1 = w
    | (Ok first, w1) =>
        match load_chroma_store env embedding_model w1 with
        | (Raise _, _) => False
        | (Ok second, w2) =>
            w2 = w1
            ∧ ∀ query, qa_ret env second query w2 = qa_ret env first query w1
        end
    end.
Proof.
  intros env w'.
  assert ((∀ dir, VectorIndex.entries (persisted w') dir
                  = VectorIndex.entries (persisted w) dir)
          ∧ files w' = files w
          ∧ (is_Some (persisted w !! "chroma_db") → persisted w' = persisted w))
    as Hask.
  { subst w' env. run_index.
    destruct (HuggingFaceEmbeddings base _) as [emb|e]; step; [|done].
    unfold VectorIndex.init, VectorIndex.retrieve.
    destruct (persisted w !! "chroma_db") as [index|] eqn:E; step.
    - destruct (ChatOpenAI base _ _ _ _) as [model|ex]; step; [|done].
      destruct (embed_query _ _) as [q|ex]; step; [|done].
      by destruct (generate model _ _).
    - assert (∀ dir, VectorIndex.entries (<["chroma_db" := []]> (persisted w)) dir
                     = VectorIndex.entries (persisted w) dir) as Hent
        by (intros dir; by apply entries_create_empty).
      destruct create_if_missing; step; [|by repeat split; intros [? [=]]].
      destruct (ChatOpenAI base _ _ _ _) as [model|ex]; step;
        [|by repeat split; try intros [? [=]]].
      destruct (embed_query _ _) as [q|ex]; step;
        [|by repeat split; try intros [? [=]]].
      destruct (generate model _ _); step;
        by repeat split; try intros [? [=]]. }
  destruct Hask as (H1 & H2 & H3). split; [done|]. split; [done|].
  split; [done|].
  destruct (load_chroma_store_spec base create_if_missing distance
              embedding_model w) as (r & d & Heq & Hent & Hsame & Hr).
  fold env in Heq. rewrite Heq. destruct r as [first|e].
  - destruct Hr as [-> Hsome].
    destruct (load_chroma_store_spec base create_if_missing distance
                embedding_model
                {| files := files w; persisted := d;
                   llm_draws := llm_draws w; stdout := stdout w |})
      as (r2 & d2 & Heq2 & _ & Hsame2 & Hr2).
    fold env in Heq2. rewrite Heq2. cbn [persisted] in Hsame2, Hr2.
    rewrite (Hsame2 (or_introl Hsome)). destruct r2 as [second|e2].
    + destruct Hr2 as [-> _]. done.
    + rewrite Hr2 in Hsome. by destruct Hsome.
  - rewrite Hsame; [by destruct w|]. right.
    destruct create_if_missing; [|done].
    revert Heq. subst env. run_index. unfold VectorIndex.init. rewrite Hr.
    by intros [=].
Qed.

(** ** The chunks of a document *)

Lemma text_splitter_separators :
  last (TextSplitter.separators text_splitter) = Some [].
Proof. reflexivity. Qed.

(** C5 (as the chunker has it): a text of at most 512 characters gives at
    most one chunk: the text without the white space around it, and no chunk
    at all when the text is empty or white space only.  So a text that is
    not empty and neither starts nor ends with white space gives exactly one
    chunk, equal to the text. *)
Theorem C5_short_text_gives_its_stripped_text (T : str) :
  length T ≤ 512 →
  TextSplitter.split_text text_splitter T
  = match strip T with
    | [] => []
    | chunk => [chunk]
    end
  ∧ (T ≠ [] → strip T = T → TextSplitter.split_text text_splitter T = [T]).
Proof.
  intros Hlen.
  assert (TextSplitter.split_text text_splitter T
          = match strip T with [] => [] | chunk => [chunk] end) as Heq.
  { unfold TextSplitter.split_text.
    rewrite (SplitterFacts._split_text_fits text_splitter); cbn; [|lia|done|done].
    unfold TextSplitter.join_docs. cbn [join]. by destruct (strip T). }
  split; [exact Heq|].
  intros Hne Hstrip. rewrite Heq, Hstrip. by destruct T.
Qed.

(** The document of scenario A is its own single chunk. *)
Lemma C5_short_text_gives_its_stripped_text_witness :
  TextSplitter.split_text text_splitter
    (lit "Paris is the capital of France. It is known for the Eiffel Tower.")
  = [lit "Paris is the capital of France. It is known for the Eiffel Tower."].
Proof.
  refine (proj2 (C5_short_text_gives_its_stripped_text
                   (lit "Paris is the capital of France. It is known for the Eiffel Tower.")
                   _) _ _).
  - unfold lit. simpl. lia.
  - done.
  - by vm_compute.
Defined.

(** The empty text gives no chunk, and a text with white space around it
    gives a chunk that is not the text. *)
Lemma C5_empty_text_gives_no_chunk :
  length (lit "") ≤ 512
  ∧ TextSplitter.split_text text_splitter (lit "") = []
  ∧ length (lit " Paris ") ≤ 512
  ∧ TextSplitter.split_text text_splitter (lit " Paris ") = [lit "Paris"].
Proof.
  split; [unfold lit; simpl; lia|]. split; [by vm_compute|].
  split; [unfold lit; simpl; lia|]. by vm_compute.
Qed.

(** C6: for a text of more than 512 characters no chunk is longer than 512
    characters, and consecutive chunks overlap by at most 40 characters: the
    text is cut into consecutive new parts, each chunk is a new part with,
    in front of it, a carried part that is the end of the text of the chunk
    before it and has at most 40 characters, the whole stripped (and left
    out when nothing remains). *)
Theorem C6_long_text_chunks_are_short_and_overlap (T : str) :
  512 < length T →
  Forall (λ chunk, length chunk ≤ 512) (TextSplitter.split_text text_splitter T)
  ∧ ∃ parts : list (str * str),
      TextSplitter.split_text text_splitter T
      = omap TextSplitter.chunk_of_parts parts
      ∧ concat parts.*2 = T
      ∧ TextSplitter.overlaps 40 [] parts.
Proof.
  intros _. split.
  - apply (SplitterFacts._split_text_short text_splitter); [cbn; lia|done].
  - exists (TextSplitter._split_text_parts text_splitter
              (TextSplitter.separators text_splitter) T).
    apply (SplitterFacts._split_text_parts_spec text_splitter); [cbn; lia|done].
Qed.

(** A text of two hundred words, 1000 characters. *)
Lemma C6_long_text_chunks_are_short_and_overlap_witness :
  512 < length Demo.long_text
  ∧ Forall (λ chunk, length chunk ≤ 512)
      (TextSplitter.split_text text_splitter Demo.long_text).
Proof.
  assert (512 < length Demo.long_text) as Hlong
    by (apply Nat.ltb_lt; by vm_compute).
  split; [exact Hlong|].
  exact (proj1 (C6_long_text_chunks_are_short_and_overlap Demo.long_text Hlong)).
Defined.

(** Its three chunks, and the lengths of the carried and new parts they are
    made of: 40 characters, eight words, are carried from chunk to chunk. *)
Example long_text_chunks :
  length <$> TextSplitter.split_text text_splitter Demo.long_text = [509; 509; 59]
  ∧ (λ p, (length p.1, length p.2))
      <$> TextSplitter._split_text_parts text_splitter
            (TextSplitter.separators text_splitter) Demo.long_text
    = [(0, 509); (40, 470); (40, 21)].
Proof. split; by vm_compute. Qed.

(** * Further properties of the handlers *)

(** ** Uploads *)

(** X1: the outcome of an upload is decided by three calls, in this order:
    loading the pages, creating the embedding model, building the index.  The
    first of them that raises gives status 500 and the detail "Failed to
    process PDF: " followed by its message; when none raises the fixed
    message is returned.  Writing and removing the temporary file never fail. *)
Theorem upload_pdf_outcome (env : Env) (file : UploadFile) (w : World) :
  (upload_pdf env file w).1
  = match PyPDFLoader_load env (Some (content file)) with
    | Raise message => HTTPException 500 (lit "Failed to process PDF: " ++ message)
    | Ok pages =>
        match HuggingFaceEmbeddings env "Lajavaness/bilingual-embedding-small" with
        | Raise message =>
            HTTPException 500 (lit "Failed to process PDF: " ++ message)
        | Ok embedding_model =>
            match (Chroma_from_documents env
                     (create_documents text_splitter
                        [concat (page_content <$> pages)])
                     embedding_model "chroma_db" (persisted w)).1 with
            | Raise message =>
                HTTPException 500 (lit "Failed to process PDF: " ++ message)
            | Ok _ =>
                Return {[ "message" :=
                            lit "PDF successfully processed and stored in vector DB" ]}
            end
        end
    end.
Proof.
  run. rewrite lookup_insert_eq.
  destruct (PyPDFLoader_load env _) as [pages|e]; step; [|done].
  destruct (HuggingFaceEmbeddings env _) as [embedding_model|e]; step; [|done].
  destruct (Chroma_from_documents env _ _ _ _) as [[vectorstore|e] d]; step;
    [|done].
  by rewrite lookup_insert_eq.
Qed.


(** X3: an upload reaches the stored indexes through the one call that builds
    the index, and only when the pages were loaded and the embedding model
    was created: a failure before that leaves every index as it was.  It
    never draws a generation from the language model. *)
Theorem upload_pdf_index_and_model (env : Env) (file : UploadFile) (w : World) :
  persisted (upload_pdf env file w).2
  = match PyPDFLoader_load env (Some (content file)),
          HuggingFaceEmbeddings env "Lajavaness/bilingual-embedding-small" with
    | Ok pages, Ok embedding_model =>
        (Chroma_from_documents env
           (create_documents text_splitter [concat (page_content <$> pages)])
           embedding_model "chroma_db" (persisted w)).2
    | _, _ => persisted w
    end
  ∧ llm_draws (upload_pdf env file w).2 = llm_draws w.
Proof.
  run. rewrite lookup_insert_eq.
  destruct (PyPDFLoader_load env _) as [pages|e]; step; [|done].
  destruct (HuggingFaceEmbeddings env _) as [embedding_model|e]; step; [|done].
  destruct (Chroma_from_documents env _ _ _ _) as [[vectorstore|e] d]; step;
    [|done].
  by rewrite lookup_insert_eq.
Qed.

(** ** Questions *)

(** X4: a question fails with status 500 only when the embedding model cannot
    be created or the index cannot be opened.  Once both are there the
    request succeeds whatever happens in [qa_ret]: a failure of the model, of
    the retrieval or of the generation comes back as a successful response
    whose answer is "Error: " followed by the message. *)
Theorem ask_question_outcome (env : Env) (question_request : QuestionRequest)
    (w : World) :
  (ask_question env question_request w).1
  = match HuggingFaceEmbeddings env "Lajavaness/bilingual-embedding-small" with
    | Raise message =>
        HTTPException 500 (lit "Failed to retrieve answer: " ++ message)
    | Ok embedding_model =>
        match Chroma_init env embedding_model "chroma_db" (persisted w) with
        | (Raise message, _) =>
            HTTPException 500 (lit "Failed to retrieve answer: " ++ message)
        | (Ok vector_store, d) =>
            Return {[ "answer" :=
              match ChatOpenAI env "gpt-4o-mini" (7 # 10)%Q (OPENAI_API_KEY env) 512 with
              | Raise ex => lit "Error: " ++ ex
              | Ok model =>
                  match retriever_invoke env vector_store 4
                          (question question_request) d with
                  | (Raise ex, _) => lit "Error: " ++ ex
                  | (Ok context, _) =>
                      match generate model
                              (template_head ++ format_context env context
                               ++ template_middle ++ question question_request
                               ++ template_tail)
                              (llm_draws w) with
                      | Raise ex => lit "Error: " ++ ex
                      | Ok response => response
                      end
                  end
              end ]}
        end
    end.
Proof.
  run. destruct (HuggingFaceEmbeddings env _) as [embedding_model|e]; step;
    [|done].
  destruct (Chroma_init env _ _ _) as [[vector_store|message] d]; step; [|done].
  destruct (ChatOpenAI env _ _ _ _) as [model|ex]; step; [|done].
  destruct (retriever_invoke env _ _ _ _) as [[context|ex] d']; step; [|done].
  by destruct (generate model _ _).
Qed.


(** ** The chunks of [process_pdf] *)

Module StripFacts.

Lemma lstrip_nil_iff (s : str) : lstrip s = [] ↔ Forall (λ c, is_space c = true) s.
Proof.
  induction s as [|c t IH]; simpl; [by split|].
  destruct (is_space c) eqn:E.
  - rewrite IH. split; [by constructor|]. by intros [_ ?]%Forall_cons.
  - split; [done|]. intros [Hc _]%Forall_cons. congruence.
Qed.

(** What [lstrip] gives is empty or starts with a character that is not
    white space. *)
Lemma lstrip_head (s : str) :
  match lstrip s with
  | [] => True
  | c :: _ => is_space c = false
  end.
Proof.
  induction s as [|c t IH]; simpl; [done|].
  by destruct (is_space c) eqn:E.
Qed.

Lemma lstrip_fixed (s : str) :
  match s with
  | [] => True
  | c :: _ => is_space c = false
  end →
  lstrip s = s.
Proof. destruct s as [|c t]; simpl; [done|]. by intros ->. Qed.

Lemma lstrip_lstrip (s : str) : lstrip (lstrip s) = lstrip s.
Proof. apply lstrip_fixed, lstrip_head. Qed.

(** [rstrip] cuts the text at its end only. *)
Lemma rstrip_prefix (s : str) : ∃ k, s = rstrip s ++ k.
Proof.
  unfold rstrip. destruct (SplitterFacts.lstrip_suffix (reverse s)) as [k Hk].
  exists (reverse k).
  by rewrite <- reverse_app, <- Hk, reverse_involutive.
Qed.

Lemma strip_nil_iff (s : str) : strip s = [] ↔ Forall (λ c, is_space c = true) s.
Proof.
  unfold strip, rstrip. split.
  - intros H. apply (f_equal reverse) in H.
    rewrite reverse_involutive, reverse_nil in H.
    apply lstrip_nil_iff in H. rewrite Forall_reverse in H.
    pose proof (lstrip_head s) as Hhead.
    destruct (lstrip s) as [|c t] eqn:E; [by apply lstrip_nil_iff|].
    apply Forall_cons in H as [Hc _]. congruence.
  - intros H. apply lstrip_nil_iff in H. by rewrite H.
Qed.

(** Stripping twice is stripping once. *)
Lemma strip_strip (s : str) : strip (strip s) = strip s.
Proof.
  unfold strip at 2 3. set (a := lstrip s).
  assert (lstrip (rstrip a) = rstrip a) as Hl.
  { destruct (rstrip_prefix a) as [k Hk].
    pose proof (lstrip_head s) as Hhead. fold a in Hhead.
    apply lstrip_fixed. destruct (rstrip a) as [|c t]; [done|].
    rewrite Hk in Hhead. exact Hhead. }
  unfold strip. rewrite Hl. unfold rstrip.
  by rewrite reverse_involutive, lstrip_lstrip.
Qed.

End StripFacts.

Module ChunkFacts.
Import TextSplitter.

Lemma chunk_of_parts_Some (p : str * str) (c : str) :
  chunk_of_parts p = Some c → c = strip (p.1 ++ p.2) ∧ c ≠ [].
Proof.
  unfold chunk_of_parts, join_docs. cbn [join].
  destruct (strip (p.1 ++ p.2)) as [|a t]; [done|]. by intros [= <-].
Qed.

Lemma chunk_of_parts_None (p : str * str) :
  chunk_of_parts p = None ↔ Forall (λ c, is_space c = true) (p.1 ++ p.2).
Proof.
  rewrite <- StripFacts.strip_nil_iff. unfold chunk_of_parts, join_docs.
  cbn [join]. by destruct (strip (p.1 ++ p.2)).
Qed.

Lemma omap_nil_iff {A B} (f : A → option B) (l : list A) :
  omap f l = [] ↔ Forall (λ x, f x = None) l.
Proof.
  induction l as [|x l IH]; cbn; [by split|].
  destruct (f x) eqn:E.
  - split; [done|]. intros [? _]%Forall_cons. congruence.
  - rewrite IH. split; [by constructor|]. by intros [_ ?]%Forall_cons.
Qed.

(** When the new parts are white space only, so are the carried parts, which
    are ends of the parts before them. *)
Lemma overlaps_blank (limit : nat) (previous : str) (parts : list (str * str)) :
  overlaps limit previous parts →
  Forall (λ c, is_space c = true) previous →
  Forall (λ p, Forall (λ c, is_space c = true) p.2) parts →
  Forall (λ p, Forall (λ c, is_space c = true) (p.1 ++ p.2)) parts.
Proof.
  revert previous. induction parts as [|[carried added] rest IH];
    intros previous; [done|].
  intros ([k ->] & _ & Hrest) Hprev [Hadded Hnew]%Forall_cons.
  apply Forall_app in Hprev as [_ Hcarried].
  assert (Forall (λ c, is_space c = true) (carried ++ added)) as Hraw
    by (by apply Forall_app).
  constructor; [done|]. by apply (IH (carried ++ added)).
Qed.

End ChunkFacts.

(** Whatever the text, every chunk the splitter of [process_pdf] gives is not
    empty, has no white space at its ends and has at most 512 characters. *)
Lemma split_text_chunks (T : str) :
  Forall (λ c, c ≠ [] ∧ strip c = c ∧ length c ≤ 512)
    (TextSplitter.split_text text_splitter T).
Proof.
  pose proof (SplitterFacts._split_text_short text_splitter
                (TextSplitter.separators text_splitter) T) as Hshort.
  pose proof (SplitterFacts._split_text_parts_spec text_splitter
                (TextSplitter.separators text_splitter) T) as (Hchunks & _ & _);
    [cbn; lia|done|].
  unfold TextSplitter.split_text. rewrite Forall_forall in Hshort |- *.
  intros c Hc. specialize (Hshort ltac:(cbn; lia) eq_refl c Hc).
  rewrite Hchunks in Hc. apply list_elem_of_omap in Hc as (p & _ & Hp).
  apply ChunkFacts.chunk_of_parts_Some in Hp as [-> Hne].
  split; [done|]. split; [apply StripFacts.strip_strip|exact Hshort].
Qed.

(** The splitter gives no chunk at all exactly for the texts that are empty
    or white space only. *)
Lemma split_text_nil_iff (T : str) :
  TextSplitter.split_text text_splitter T = []
  ↔ Forall (λ c, is_space c = true) T.
Proof.
  pose proof (SplitterFacts._split_text_parts_spec text_splitter
                (TextSplitter.separators text_splitter) T)
    as (Hchunks & Hcover & Hov); [cbn; lia|done|].
  unfold TextSplitter.split_text. rewrite Hchunks, ChunkFacts.omap_nil_iff.
  remember (TextSplitter._split_text_parts text_splitter
              (TextSplitter.separators text_splitter) T) as parts eqn:Hparts.
  clear Hparts Hchunks.
  rewrite <- Hcover, Forall_concat, Forall_fmap.
  split.
  - intros Hnone. eapply Forall_impl; [exact Hnone|].
    intros p Hp. apply ChunkFacts.chunk_of_parts_None in Hp.
    by apply Forall_app in Hp as [_ ?].
  - intros Hblank. eapply Forall_impl.
    + by apply (ChunkFacts.overlaps_blank _ [] _ Hov).
    + intros p Hp. by apply ChunkFacts.chunk_of_parts_None.
Qed.

(** X6: [process_pdf] changes nothing in the world, and every chunk it
    returns carries no metadata (the page and source recorded by the loader
    are not kept), is not empty, has no white space at its ends and has at
    most 512 characters. *)
Theorem process_pdf_chunks (env : Env) (pdf_path : string) (w : World)
    (chunks : list Document) :
  (process_pdf env pdf_path w).1 = Ok chunks →
  (process_pdf env pdf_path w).2 = w
  ∧ Forall (λ chunk,
              metadata chunk = ∅
              ∧ page_content chunk ≠ []
              ∧ strip (page_content chunk) = page_content chunk
              ∧ length (page_content chunk) ≤ 512) chunks.
Proof.
  run. destruct (PyPDFLoader_load env _) as [pages|e]; step; [|done].
  intros [= <-]. split; [done|].
  unfold create_documents. cbn [mbind list_bind]. rewrite app_nil_r.
  apply Forall_fmap. eapply Forall_impl; [apply split_text_chunks|].
  intros c (? & ? & ?). done.
Qed.

(** The one chunk of the Paris document. *)
Lemma process_pdf_chunks_witness :
  (process_pdf Demo.env_creating "paris.pdf"
     {| files := {[ "paris.pdf" := content Demo.paris ]}; persisted := ∅;
        llm_draws := 0; stdout := [] |}).1
  = Ok [{| page_content :=
             lit "Paris is the capital of France. It is known for the Eiffel Tower.";
           metadata := ∅ |}]
  ∧ Forall (λ chunk, metadata chunk = ∅ ∧ page_content chunk ≠ []
                     ∧ strip (page_content chunk) = page_content chunk
                     ∧ length (page_content chunk) ≤ 512)
      [{| page_content :=
            lit "Paris is the capital of France. It is known for the Eiffel Tower.";
          metadata := ∅ |}].
Proof.
  assert ((process_pdf Demo.env_creating "paris.pdf"
             {| files := {[ "paris.pdf" := content Demo.paris ]}; persisted := ∅;
                llm_draws := 0; stdout := [] |}).1
          = Ok [{| page_content :=
                     lit "Paris is the capital of France. It is known for the Eiffel Tower.";
                   metadata := ∅ |}]) as Hrun by (by vm_compute).
  split; [exact Hrun|].
  exact (proj2 (process_pdf_chunks _ _ _ _ Hrun)).
Defined.

(** X7: [process_pdf] returns no chunk exactly when the pages it loaded hold
    nothing but white space, as those of a scanned document do. *)
Theorem process_pdf_no_chunk_iff_blank (env : Env) (pdf_path : string)
    (w : World) (pages : list Document) :
  PyPDFLoader_load env (files w !! pdf_path) = Ok pages →
  (process_pdf env pdf_path w).1 = Ok []
  ↔ Forall (λ c, is_space c = true) (concat (page_content <$> pages)).
Proof.
  intros Hpages. run. rewrite Hpages. step.
  rewrite <- split_text_nil_iff.
  unfold create_documents. cbn [mbind list_bind]. rewrite app_nil_r.
  split.
  - intros [= H]. by apply fmap_nil_inv in H.
  - by intros ->.
Qed.

(** A document whose only page is blank gives no chunk. *)
Lemma process_pdf_no_chunk_iff_blank_witness :
  (process_pdf Demo.env_creating "scan.pdf"
     {| files := {[ "scan.pdf" := byte_of_ascii <$> lit "   " ]}; persisted := ∅;
        llm_draws := 0; stdout := [] |}).1 = Ok [].
Proof.
  refine (proj2 (process_pdf_no_chunk_iff_blank Demo.env_creating "scan.pdf"
                   {| files := {[ "scan.pdf" := byte_of_ascii <$> lit "   " ]};
                      persisted := ∅; llm_draws := 0; stdout := [] |}
                   [{| page_content := lit "   "; metadata := ∅ |}] _) _).
  - by vm_compute.
  - vm_compute. repeat constructor.
Defined.

(** ** Requests one after the other *)





(** * The page *)

Module PageFacts.

(** [render_chat] adds one block for every message it has a block for, in
    the order of the history, and changes nothing else. *)
Lemma render_chat_elements (p : Streamlit.Page) :
  Streamlit.render_chat p
  = {| Streamlit.session := Streamlit.session p;
       Streamlit.elements :=
         Streamlit.elements p
         ++ omap Streamlit.render_message
              (Streamlit.chat_history (Streamlit.session p));
       Streamlit.log := Streamlit.log p |}.
Proof.
  unfold Streamlit.render_chat.
  generalize (Streamlit.chat_history (Streamlit.session p)) as h.
  intros h. revert p. induction h as [|chat h IH]; intros p.
  - destruct p. cbn. by rewrite app_nil_r.
  - cbn [foldl]. rewrite IH. cbn [omap list_omap].
    destruct (Streamlit.render_message chat) as [e|]; cbn; [|done].
    by rewrite <- app_assoc.
Qed.

(** The blocks of the two roles. *)
Lemma render_message_user (q : Streamlit.value) :
  Streamlit.render_message {| Streamlit.role := lit "user"; Streamlit.content := q |}
  = Some (Streamlit.markdown
            (Streamlit.user_html_before ++ Streamlit.format q
             ++ Streamlit.user_html_after) true).
Proof.
  unfold Streamlit.render_message. cbn [Streamlit.role Streamlit.content].
  by rewrite decide_True.
Qed.

Lemma render_message_assistant (a : Streamlit.value) :
  Streamlit.render_message
    {| Streamlit.role := lit "assistant"; Streamlit.content := a |}
  = Some (Streamlit.markdown
            (Streamlit.assistant_html_before ++ Streamlit.format a
             ++ Streamlit.assistant_html_after) true).
Proof.
  unfold Streamlit.render_message. cbn [Streamlit.role Streamlit.content].
  destruct (decide (lit "assistant" = lit "user")) as [H|_]; [done|].
  by rewrite decide_True.
Qed.

(** Sending a question leaves the session state as it is. *)
Lemma send_question_session requests (question : str) (p : Streamlit.Page) :
  Streamlit.session (Streamlit.send_question requests question p).2
  = Streamlit.session p.
Proof.
  unfold Streamlit.send_question.
  destruct (requests _) as [response| |e]; [|done..].
  by destruct (decide _), (Streamlit.json response).
Qed.

End PageFacts.


(** What the question handler gives back: status 500 with the prefixed
    message, or a body with the answer. *)
Lemma ask_question_cases (env : Env) (question_request : QuestionRequest)
    (w : World) :
  (∃ message, (ask_question env question_request w).1
      = HTTPException 500 (lit "Failed to retrieve answer: " ++ message))
  ∨ (∃ answer, (ask_question env question_request w).1
      = Return {[ "answer" := answer ]}).
Proof.
  run. destruct (HuggingFaceEmbeddings env _) as [embedding_model|e]; step;
    [|by eauto].
  destruct (Chroma_init env _ _ _) as [[vector_store|message] d]; step;
    [|by eauto].
  destruct (ChatOpenAI env _ _ _ _) as [model|ex]; step; [|by eauto].
  destruct (retriever_invoke env _ _ _ _) as [[context|ex] d']; step;
    [|by eauto].
  destruct (generate model _ _); step; by eauto.
Qed.

(** What the upload handler gives back: status 500 with the prefixed
    message, or the fixed message. *)
Lemma upload_pdf_cases (env : Env) (file : UploadFile) (w : World) :
  (∃ message, (upload_pdf env file w).1
      = HTTPException 500 (lit "Failed to process PDF: " ++ message))
  ∨ (upload_pdf env file w).1
    = Return {[ "message" :=
                  lit "PDF successfully processed and stored in vector DB" ]}.
Proof.
  run. rewrite lookup_insert_eq.
  destruct (PyPDFLoader_load env _) as [pages|e]; step; [|by eauto].
  destruct (HuggingFaceEmbeddings env _) as [embedding_model|e]; step;
    [|by eauto].
  destruct (Chroma_from_documents env _ _ _ _) as [[vectorstore|e] d]; step;
    [|by eauto].
  rewrite lookup_insert_eq. by right.
Qed.

(** ** Questions on the page *)


(** X11: the chat history stays a conversation: a run of the form only adds
    at the end, at most the question and one answer, every message of the
    assistant comes right after a question of the user, and the address of
    the server is not changed. *)
Theorem chat_form_conversation requests (user_input : str)
    (submit_button : bool) (p : Streamlit.Page) :
  Streamlit.conversation (Streamlit.chat_history (Streamlit.session p)) →
  let p' := Streamlit.chat_form requests user_input submit_button p in
  Streamlit.conversation (Streamlit.chat_history (Streamlit.session p'))
  ∧ Streamlit.api_url (Streamlit.session p') = Streamlit.api_url (Streamlit.session p)
  ∧ ∃ new,
      Streamlit.chat_history (Streamlit.session p')
      = Streamlit.chat_history (Streamlit.session p) ++ new
      ∧ length new ≤ 2.
Proof.
  intros Hconv p'. subst p'. unfold Streamlit.chat_form.
  destruct (submit_button && bool_decide (user_input ≠ [])).
  2: { split; [done|]. split; [done|]. exists []. rewrite app_nil_r; cbn.
       split; [done|lia]. }
  pose proof (PageFacts.send_question_session requests user_input
                (Streamlit.append
                   {| Streamlit.role := lit "user";
                      Streamlit.content := Streamlit.Str user_input |} p))
    as Hsession.
  destruct (Streamlit.send_question _ _ _) as [answer p1]. cbn [snd] in Hsession.
  assert (Streamlit.conversation (Streamlit.chat_history (Streamlit.session p1))
          ∧ Streamlit.api_url (Streamlit.session p1)
            = Streamlit.api_url (Streamlit.session p)
          ∧ Streamlit.chat_history (Streamlit.session p1)
            = Streamlit.chat_history (Streamlit.session p)
              ++ [{| Streamlit.role := lit "user";
                     Streamlit.content := Streamlit.Str user_input |}])
    as (Hconv1 & Hurl & Hhistory).
  { rewrite Hsession. cbn. split; [by constructor|done]. }
  destruct answer as [answer|]; [destruct (Streamlit.truth answer)|].
  - cbn. rewrite Hhistory, <- app_assoc. cbn [app].
    split; [by constructor|]. split; [done|]. eexists. split; [done|]. cbn. lia.
  - split; [done|]. split; [done|]. eexists. split; [done|]. cbn. lia.
  - split; [done|]. split; [done|]. eexists. split; [done|]. cbn. lia.
Qed.

(** X12: every message of a conversation is displayed: [render_chat] adds
    one block per message, in the order of the history, and each block holds
    the content of its message as it is, inside markup for which HTML is
    allowed. *)
Theorem render_chat_conversation (p : Streamlit.Page) :
  Streamlit.conversation (Streamlit.chat_history (Streamlit.session p)) →
  ∃ blocks,
    Streamlit.render_chat p
    = {| Streamlit.session := Streamlit.session p;
         Streamlit.elements := Streamlit.elements p ++ blocks;
         Streamlit.log := Streamlit.log p |}
    ∧ Forall2
        (λ chat block,
           Streamlit.render_message chat = Some block
           ∧ ∃ before after,
               block = Streamlit.markdown
                         (before ++ Streamlit.format (Streamlit.content chat)
                          ++ after) true)
        (Streamlit.chat_history (Streamlit.session p)) blocks.
Proof.
  intros Hconv. rewrite PageFacts.render_chat_elements.
  eexists. split; [done|].
  induction Hconv as [|h q _ IH|h q a _ IH]; [by constructor|..];
    rewrite omap_app; (apply Forall2_app; [exact IH|]); cbn [omap list_omap];
    rewrite ?PageFacts.render_message_user, ?PageFacts.render_message_assistant;
    repeat constructor; by eauto.
Qed.

(** ** The page and the server *)

(** X13: a question sent from the form to the question handler.  When the
    handler returns, its answer, unless empty, becomes the message of the
    assistant and no error is shown; when it fails, only the question is kept
    and the error shown has the prefix twice, once from the handler and once
    from the page: Failed to retrieve answer: Failed to retrieve answer:
    and the message. *)
Theorem question_round_trip (env : Env) (w : World) requests (user_input : str)
    (p : Streamlit.Page) :
  user_input ≠ [] →
  requests (Streamlit.post_json
              (Streamlit.api_url (Streamlit.session p) ++ lit "/ask-question/")
              {[ "question" := user_input ]} 30)
  = Streamlit.Responded
      (Streamlit.http_response
         (ask_question env {| question := user_input |} w).1) →
  let p' := Streamlit.chat_form requests user_input true p in
  let asked := {| Streamlit.role := lit "user";
                  Streamlit.content := Streamlit.Str user_input |} in
  match (ask_question env {| question := user_input |} w).1 with
  | Return body =>
      ∃ answer,
        body = {[ "answer" := answer ]}
        ∧ Streamlit.chat_history (Streamlit.session p')
          = Streamlit.chat_history (Streamlit.session p)
            ++ asked
               :: match answer with
                  | [] => []
                  | _ :: _ => [{| Streamlit.role := lit "assistant";
                                  Streamlit.content := Streamlit.Str answer |}]
                  end
        ∧ Streamlit.elements p'
          = Streamlit.elements p ++ [Streamlit.spinner (lit "Fetching answer...")]
  | HTTPException _ detail =>
      ∃ message,
        detail = lit "Failed to retrieve answer: " ++ message
        ∧ Streamlit.chat_history (Streamlit.session p')
          = Streamlit.chat_history (Streamlit.session p) ++ [asked]
        ∧ Streamlit.elements p'
          = Streamlit.elements p
            ++ [Streamlit.spinner (lit "Fetching answer...");
                Streamlit.error
                  (lit "Failed to retrieve answer: Failed to retrieve answer: "
                   ++ message)]
  end.
Proof.
  intros Hinput Hnet p' asked. subst p'.
  unfold Streamlit.chat_form, Streamlit.send_question.
  rewrite bool_decide_true by done.
  cbn [andb Streamlit.append Streamlit.session Streamlit.api_url]. rewrite Hnet.
  destruct (ask_question_cases env {| question := user_input |} w)
    as [[message ->]|[answer ->]]; cbn [Streamlit.http_response Streamlit.status_code Streamlit.json].
  - rewrite decide_False by done. rewrite lookup_singleton_eq.
    exists message. cbn. rewrite <- !app_assoc. by unfold lit.
  - rewrite decide_True by done.
    rewrite map_fmap_singleton, lookup_singleton_eq.
    exists answer. split; [done|].
    destruct answer; cbn; by rewrite <- ?app_assoc.
Qed.

(** X14: when the language model cannot be created, the page shows no error
    and logs no error: the text Error: followed by the message of the failure
    enters the chat history as the answer of the assistant. *)
Theorem model_failure_is_shown_as_answer (env : Env) (w : World) requests
    (user_input : str) (p : Streamlit.Page) (embedding_model : Embeddings)
    (vector_store : Chroma) (d : Disk) (ex : str) :
  user_input ≠ [] →
  HuggingFaceEmbeddings env "Lajavaness/bilingual-embedding-small"
  = Ok embedding_model →
  Chroma_init env embedding_model "chroma_db" (persisted w) = (Ok vector_store, d) →
  ChatOpenAI env "gpt-4o-mini" (7 # 10)%Q (OPENAI_API_KEY env) 512 = Raise ex →
  requests (Streamlit.post_json
              (Streamlit.api_url (Streamlit.session p) ++ lit "/ask-question/")
              {[ "question" := user_input ]} 30)
  = Streamlit.Responded
      (Streamlit.http_response
         (ask_question env {| question := user_input |} w).1) →
  let p' := Streamlit.chat_form requests user_input true p in
  Streamlit.chat_history (Streamlit.session p')
  = Streamlit.chat_history (Streamlit.session p)
    ++ [{| Streamlit.role := lit "user";
           Streamlit.content := Streamlit.Str user_input |};
        {| Streamlit.role := lit "assistant";
           Streamlit.content := Streamlit.Str (lit "Error: " ++ ex) |}]
  ∧ Streamlit.elements p'
    = Streamlit.elements p ++ [Streamlit.spinner (lit "Fetching answer...")]
  ∧ Streamlit.log p'
    = Streamlit.log p ++ [Streamlit.info (lit "Received answer from API.")].
Proof.
  intros Hinput Hembeddings Hinit Hmodel Hnet p'. subst p'.
  assert ((ask_question env {| question := user_input |} w).1
          = Return {[ "answer" := lit "Error: " ++ ex ]}) as Hserver.
  { run. rewrite Hembeddings. step. rewrite Hinit. step. by rewrite Hmodel. }
  rewrite Hserver in Hnet.
  unfold Streamlit.chat_form, Streamlit.send_question.
  rewrite bool_decide_true by done.
  cbn [andb Streamlit.append Streamlit.session Streamlit.api_url]. rewrite Hnet.
  cbn [Streamlit.http_response Streamlit.status_code Streamlit.json].
  rewrite decide_True by done.
  rewrite map_fmap_singleton, lookup_singleton_eq. cbn.
  destruct (lit "Error: " ++ ex) eqn:Hanswer; [by unfold lit in Hanswer|].
  cbn. by rewrite <- !app_assoc.
Qed.

(** X15: an upload sent from the sidebar to the upload handler.  When the
    handler returns, the page shows the success and the balloons; when it
    fails, the page shows Failed to upload PDF: Failed to process PDF: and
    the message.  The session state is not changed. *)
Theorem upload_round_trip (env : Env) (w : World) requests
    (uploaded_file : Streamlit.UploadedFile) (p : Streamlit.Page) :
  let file := {| filename := Streamlit.name uploaded_file;
                 content := Streamlit.getvalue uploaded_file |} in
  requests (Streamlit.post_files
              (Streamlit.api_url (Streamlit.session p) ++ lit "/upload-pdf/")
              {[ "file" := (Streamlit.name uploaded_file,
                            Streamlit.getvalue uploaded_file,
                            lit "application/pdf") ]} 60)
  = Streamlit.Responded (Streamlit.http_response (upload_pdf env file w).1) →
  let p' := Streamlit.upload_button requests (Some uploaded_file) true p in
  Streamlit.session p' = Streamlit.session p
  ∧ match (upload_pdf env file w).1 with
    | Return _ =>
        Streamlit.elements p'
        = Streamlit.elements p
          ++ [Streamlit.spinner (lit "Uploading PDF...");
              Streamlit.sidebar_success
                (lit "PDF successfully uploaded and processed.");
              Streamlit.balloons]
    | HTTPException _ detail =>
        ∃ message,
          detail = lit "Failed to process PDF: " ++ message
          ∧ Streamlit.elements p'
            = Streamlit.elements p
              ++ [Streamlit.spinner (lit "Uploading PDF...");
                  Streamlit.sidebar_error
                    (lit "Failed to upload PDF: Failed to process PDF: "
                     ++ message)]
    end.
Proof.
  intros file Hnet p'. subst p'.
  unfold Streamlit.upload_button, Streamlit.upload_pdf. rewrite Hnet.
  destruct (upload_pdf_cases env file w) as [[message ->]| ->];
    cbn [Streamlit.http_response Streamlit.status_code Streamlit.json].
  - rewrite decide_False by done. rewrite lookup_singleton_eq.
    split; [done|]. exists message. cbn. rewrite <- !app_assoc. by unfold lit.
  - rewrite decide_True by done. cbn. by rewrite <- !app_assoc.
Qed.

(** A question asked while the server does not respond in time. *)
Lemma chat_form_conversation_witness :
  Streamlit.conversation
    (Streamlit.chat_history (Streamlit.session Streamlit.new_page))
  ∧ Streamlit.conversation
      (Streamlit.chat_history
         (Streamlit.session
            (Streamlit.chat_form (λ _, Streamlit.Timeout)
               (lit "What is the capital of France?") true Streamlit.new_page))).
Proof.
  split; [by constructor|].
  apply (chat_form_conversation (λ _, Streamlit.Timeout)
           (lit "What is the capital of France?") true Streamlit.new_page).
  by constructor.
Defined.

Lemma render_chat_conversation_witness :
  let history :=
    [{| Streamlit.role := lit "user";
        Streamlit.content := Streamlit.Str (lit "What is the capital of France?") |};
     {| Streamlit.role := lit "assistant";
        Streamlit.content := Streamlit.Str (lit "It is Paris.") |}] in
  let p := {| Streamlit.session :=
                {| Streamlit.chat_history := history;
                   Streamlit.api_url := lit "http://localhost:8000" |};
              Streamlit.elements := []; Streamlit.log := [] |} in
  Streamlit.conversation history
  ∧ ∃ blocks,
      Streamlit.render_chat p
      = {| Streamlit.session := Streamlit.session p;
           Streamlit.elements := Streamlit.elements p ++ blocks;
           Streamlit.log := Streamlit.log p |}
      ∧ length blocks = 2.
Proof.
  intros history p.
  assert (Streamlit.conversation history) as Hconv
    by exact (Streamlit.conversation_answer [] _ _ Streamlit.conversation_nil).
  split; [exact Hconv|].
  destruct (render_chat_conversation p Hconv) as (blocks & Hrender & Hblocks).
  exists blocks. split; [exact Hrender|].
  by rewrite <- (Forall2_length _ _ _ Hblocks).
Defined.

(** A question to a server whose index is empty and whose model answers. *)
Lemma question_round_trip_witness :
  let user_input := lit "What is the capital of France?" in
  let server := ask_question Demo.env_creating {| question := user_input |}
                  Demo.fresh_world in
  let requests := λ _, Streamlit.Responded (Streamlit.http_response server.1) in
  user_input ≠ []
  ∧ server.1 = Return {[ "answer" := lit "It is Paris." ]}
  ∧ Streamlit.chat_history
      (Streamlit.session
         (Streamlit.chat_form requests user_input true Streamlit.new_page))
    = [{| Streamlit.role := lit "user";
          Streamlit.content := Streamlit.Str user_input |};
       {| Streamlit.role := lit "assistant";
          Streamlit.content := Streamlit.Str (lit "It is Paris.") |}].
Proof.
  intros user_input server requests.
  assert (user_input ≠ []) as Hinput by done.
  assert (server.1 = Return {[ "answer" := lit "It is Paris." ]}) as Hserver
    by (by vm_compute).
  split; [exact Hinput|]. split; [exact Hserver|].
  pose proof (question_round_trip Demo.env_creating Demo.fresh_world requests
                user_input Streamlit.new_page Hinput eq_refl) as Hround.
  cbv zeta in Hround. fold server in Hround. rewrite Hserver in Hround.
  destruct Hround as (answer & Hbody & Hhistory & _).
  apply (inj (singletonM "answer")) in Hbody. subst answer.
  exact Hhistory.
Defined.

(** A question to a server on which no key of the model provider is
    configured. *)
Lemma model_failure_is_shown_as_answer_witness :
  let user_input := lit "What is the capital of France?" in
  let server := ask_question Demo.env_no_key {| question := user_input |}
                  Demo.fresh_world in
  let requests := λ _, Streamlit.Responded (Streamlit.http_response server.1) in
  let p' := Streamlit.chat_form requests user_input true Streamlit.new_page in
  ChatOpenAI Demo.env_no_key "gpt-4o-mini" (7 # 10)%Q
    (OPENAI_API_KEY Demo.env_no_key) 512
  = Raise (lit "Did not find openai_api_key")
  ∧ Streamlit.chat_history (Streamlit.session p')
    = [{| Streamlit.role := lit "user";
          Streamlit.content := Streamlit.Str user_input |};
       {| Streamlit.role := lit "assistant";
          Streamlit.content :=
            Streamlit.Str (lit "Error: Did not find openai_api_key") |}]
  ∧ Streamlit.elements p' = [Streamlit.spinner (lit "Fetching answer...")].
Proof.
  intros user_input server requests p'.
  split; [reflexivity|].
  destruct (model_failure_is_shown_as_answer Demo.env_no_key Demo.fresh_world
              requests user_input Streamlit.new_page Demo.embeddings
              {| _embedding_function := Demo.embeddings;
                 _persist_directory := "chroma_db" |}
              (<["chroma_db" := []]> ∅)
              (lit "Did not find openai_api_key"))
    as (Hhistory & Helements & _);
    [done|reflexivity|reflexivity|reflexivity|reflexivity|].
  split; [exact Hhistory|exact Helements].
Defined.

(** The upload of the Paris document to a server that stores it. *)
Lemma upload_round_trip_witness :
  let uploaded_file :=
    {| Streamlit.name := filename Demo.paris;
       Streamlit.getvalue := content Demo.paris |} in
  let server := upload_pdf Demo.env_creating Demo.paris Demo.fresh_world in
  let requests := λ _, Streamlit.Responded (Streamlit.http_response server.1) in
  Streamlit.elements
    (Streamlit.upload_button requests (Some uploaded_file) true Streamlit.new_page)
  = [Streamlit.spinner (lit "Uploading PDF...");
     Streamlit.sidebar_success (lit "PDF successfully uploaded and processed.");
     Streamlit.balloons].
Proof.
  intros uploaded_file server requests.
  assert (server.1
          = Return {[ "message" :=
                        lit "PDF successfully processed and stored in vector DB" ]})
    as Hserver by (by vm_compute).
  pose proof (upload_round_trip Demo.env_creating Demo.fresh_world requests
                uploaded_file Streamlit.new_page eq_refl) as Hround.
  cbv zeta in Hround. destruct Hround as [_ Hround].
  change (upload_pdf Demo.env_creating _ Demo.fresh_world) with server in Hround.
  rewrite Hserver in Hround. exact Hround.
Defined.

